(** * winston-loggly-syslog: the Loggly syslog transport (src/index.js)

    A shallow embedding of the transport: the constructor and its option
    defaults, the severity table, the wire-record encoder, the
    reconnection handlers (stream error, retry timer, stream end,
    established connection) and [log]/[sendMessage], followed by the
    properties the specification states about them.

    Conventions of the embedding.
    - JavaScript numbers that the transport counts with (retry counters,
      delays, ports) are integer valued and stay far below 2^53, so they
      are [Z].
    - The transport object [self] is one record; the sockets returned by
      [tls.connect], the notifications given to [emit], the pending
      [setTimeout] calls and the acknowledgement callbacks that were
      called are kept next to it in a [World].
    - What Node decides (host name, process id, the text of [util.inspect]
      and [JSON.stringify], whether a socket reports [writable] while its
      handshake is pending) is a variable of the section. *)

From Stdlib Require Import ZArith Ascii String DecimalString.
From stdpp Require Import base strings gmap list.

Set Warnings "-register-all".
Local Open Scope Z_scope.

(** ** JavaScript values *)

Module JS.

(** The values that reach the transport: messages, metadata, callbacks
    and the members of [levelMap] and of its prototype. An object is its
    own properties in insertion order; a function is known by its name. *)
Inductive jsval :=
| JUndefined
| JNull
| JNaN
| JBool (b : bool)
| JNum (z : Z)
| JStr (s : string)
| JObj (props : list (string * jsval))
| JFun (name : string).

(** ToBoolean: the falsy values are undefined, null, NaN, false, 0 and
    the empty string. *)
Definition truthy (v : jsval) : bool :=
  match v with
  | JUndefined | JNull | JNaN => false
  | JBool b => b
  | JNum z => negb (z =? 0)
  | JStr s => negb (String.eqb s EmptyString)
  | JObj _ | JFun _ => true
  end.

(** [a || b] *)
Definition logical_or (a b : jsval) : jsval := if truthy a then a else b.

(** [typeof v] *)
Definition typeof (v : jsval) : string :=
  match v with
  | JUndefined => "undefined"
  | JNull => "object"
  | JNaN | JNum _ => "number"
  | JBool _ => "boolean"
  | JStr _ => "string"
  | JObj _ => "object"
  | JFun _ => "function"
  end.

Definition decimal (z : Z) : string := NilZero.string_of_int (Z.to_int z).

(** ToString, as string concatenation applies it. A plain object prints
    as [[object Object]], a built-in function as V8 prints it. *)
Definition ToString (v : jsval) : string :=
  match v with
  | JUndefined => "undefined"
  | JNull => "null"
  | JNaN => "NaN"
  | JBool true => "true"
  | JBool false => "false"
  | JNum z => decimal z
  | JStr s => s
  | JObj _ => "[object Object]"
  | JFun name => "function " +:+ name +:+ "() { [native code] }"
  end.

(** ToNumber on the primitives that are not strings; [None] is NaN. *)
Definition ToNumber (v : jsval) : option Z :=
  match v with
  | JNull => Some 0
  | JBool b => Some (if b then 1 else 0)
  | JNum z => Some z
  | _ => None
  end.

(** After ToPrimitive an object or a function is a string. *)
Definition stringish (v : jsval) : bool :=
  match v with
  | JStr _ | JObj _ | JFun _ => true
  | _ => false
  end.

(** [a + b]: concatenation as soon as one side is a string after
    ToPrimitive, numeric addition otherwise. *)
Definition add (a b : jsval) : jsval :=
  if stringish a || stringish b then JStr (ToString a +:+ ToString b)
  else match ToNumber a, ToNumber b with
       | Some x, Some y => JNum (x + y)
       | _, _ => JNaN
       end.

(** The members every object literal inherits from [Object.prototype]. *)
Definition Object_prototype : gmap string jsval :=
  list_to_map
    [("constructor", JFun "Object");
     ("__defineGetter__", JFun "__defineGetter__");
     ("__defineSetter__", JFun "__defineSetter__");
     ("hasOwnProperty", JFun "hasOwnProperty");
     ("__lookupGetter__", JFun "__lookupGetter__");
     ("__lookupSetter__", JFun "__lookupSetter__");
     ("isPrototypeOf", JFun "isPrototypeOf");
     ("propertyIsEnumerable", JFun "propertyIsEnumerable");
     ("toString", JFun "toString");
     ("valueOf", JFun "valueOf");
     ("__proto__", JObj []);
     ("toLocaleString", JFun "toLocaleString")].

(** [o[k]] on an object literal [o]: own property first, then the
    prototype, [undefined] when neither has it. *)
Definition get (o : gmap string jsval) (k : string) : jsval :=
  match o !! k with
  | Some v => v
  | None => default JUndefined (Object_prototype !! k)
  end.

End JS.

Import JS.

(** ** Severity table (index.js, lines 260-275) *)

Definition levelMap : gmap string jsval :=
  list_to_map
    [("emerg", JNum 0);
     ("alert", JNum 1);
     ("crit", JNum 2);
     ("error", JNum 3);
     ("warning", JNum 4);
     ("notice", JNum 5);
     ("info", JNum 6);
     ("debug", JNum 7)].

(** [return levelMap[level] || 6] *)
Definition getPriority (level : string) : jsval :=
  JS.logical_or (JS.get levelMap level) (JNum 6).

(** [var priVal = 8 + getPriority(level)] *)
Definition priVal (level : string) : jsval :=
  JS.add (JNum 8) (getPriority level).

(** ** Option values and their defaults (index.js, lines 46-102) *)

(** The falsy values a caller can put in an option. A missing property
    reads as [undefined]; [-0] counts as [0]. *)
Inductive falsy := f_undefined | f_null | f_false | f_zero | f_nan | f_empty.

(** What [options.x] holds: one of the falsy values, or a value of the
    type the constructor documents for [x]. *)
Inductive supplied (A : Type) :=
| Falsy (f : falsy)
| Val (a : A).
Arguments Falsy {A} f.
Arguments Val {A} a.

(** ToBoolean on the documented types. *)
Class Truthiness (A : Type) := is_truthy : A → bool.

#[global] Instance Z_truthiness : Truthiness Z := λ z, negb (z =? 0).
#[global] Instance string_truthiness : Truthiness string :=
  λ s, negb (String.eqb s EmptyString).
#[global] Instance bool_truthiness : Truthiness bool := λ b, b.
#[global] Instance array_truthiness {A} : Truthiness (list A) := λ _, true.
#[global] Instance function_truthiness {A B} : Truthiness (A → B) := λ _, true.
#[global] Instance jsval_truthiness : Truthiness jsval := JS.truthy.

Definition supplied_truthy {A} `{Truthiness A} (o : supplied A) : bool :=
  match o with
  | Falsy _ => false
  | Val a => is_truthy a
  end.

(** [options.x || d] *)
Definition or_default {A} `{Truthiness A} (o : supplied A) (d : A) : A :=
  match o with
  | Val a => if is_truthy a then a else d
  | Falsy _ => d
  end.

Definition supplied_map {A B} (f : A → B) (o : supplied A) : supplied B :=
  match o with
  | Falsy x => Falsy x
  | Val a => Val (f a)
  end.

Definition falsy_text (f : falsy) : string :=
  match f with
  | f_undefined => "undefined"
  | f_null => "null"
  | f_false => "false"
  | f_zero => "0"
  | f_nan => "NaN"
  | f_empty => EmptyString
  end.

(** The text of a supplied string inside a concatenation. *)
Definition supplied_text (o : supplied string) : string :=
  match o with
  | Falsy f => falsy_text f
  | Val s => s
  end.

(** [logFormat(message, meta)], as the text it contributes to the
    record; a formatter is taken to return for every message and
    metadata. *)
Definition Formatter : Type := jsval → jsval → string.

(** The [options] argument of the constructor. *)
Record Options := {
  o_level : supplied string;
  o_host : supplied string;
  o_port : supplied Z;
  o_token : supplied string;
  o_tags : supplied (list string);
  o_hostname : supplied string;
  o_pid : supplied string;
  o_program : supplied string;
  o_logFormat : supplied Formatter;
  o_attemptsBeforeDecay : supplied Z;
  o_maximumAttempts : supplied Z;
  o_connectionDelay : supplied Z;
  o_handleExceptions : supplied bool;
  o_maxDelayBetweenReconnection : supplied Z;
  o_inlineMeta : supplied bool
}.

(** [{}] *)
Definition no_options : Options := {|
  o_level := Falsy f_undefined;
  o_host := Falsy f_undefined;
  o_port := Falsy f_undefined;
  o_token := Falsy f_undefined;
  o_tags := Falsy f_undefined;
  o_hostname := Falsy f_undefined;
  o_pid := Falsy f_undefined;
  o_program := Falsy f_undefined;
  o_logFormat := Falsy f_undefined;
  o_attemptsBeforeDecay := Falsy f_undefined;
  o_maximumAttempts := Falsy f_undefined;
  o_connectionDelay := Falsy f_undefined;
  o_handleExceptions := Falsy f_undefined;
  o_maxDelayBetweenReconnection := Falsy f_undefined;
  o_inlineMeta := Falsy f_undefined
|}.

(** ** The transport object and its surroundings *)

(** The fields of [self]. [stream] is the handle of the socket that
    [tls.connect] returned last. *)
Record Transport := {
  name : string;
  level : string;
  host : string;
  port : Z;
  token : supplied string;
  tags : list string;
  hostname : string;
  pid : jsval;
  program : string;
  logFormat : Formatter;
  attemptsBeforeDecay : Z;
  maximumAttempts : Z;
  connectionDelay : Z;
  handleExceptions : bool;
  maxDelayBetweenReconnection : Z;
  inlineMeta : bool;
  currentRetries : Z;
  totalRetries : Z;
  buffer : string;
  loggingEnabled : bool;
  structuredData : string;
  stream : option nat
}.

(** A socket made by [tls.connect(port, host, {rejectUnauthorized:false},
    onConnected)]: where it connects to, whether it reports [writable],
    and the chunks handed to its [write], oldest first. *)
Record Socket := {
  remote_port : Z;
  remote_host : string;
  rejectUnauthorized : bool;
  writable : bool;
  written : list string
}.

(** What [self.emit] was given. The notifications are taken to have an
    observer, as they have once the transport is added to a logger. *)
Inductive Event :=
| EvError (description : string)
| EvConnect (message : string).

(** The transport together with what it has acted on: every socket made
    so far (a handle is an index), the notifications emitted, the delays
    of the [setTimeout] calls still pending (each runs the retry closure)
    and the callbacks called with their arguments. *)
Record World := {
  self : Transport;
  sockets : list Socket;
  emitted : list Event;
  timers : list Z;
  acks : list (string * list jsval)
}.

(** How a call ends. *)
Inductive Completion :=
| Normal
| Throw (e : string).

(** Assignments to the fields of [self] that change after construction. *)
Definition set_connectionDelay (v : Z) (t : Transport) : Transport :=
  {| name := name t; level := level t; host := host t; port := port t;
     token := token t; tags := tags t; hostname := hostname t; pid := pid t;
     program := program t; logFormat := logFormat t;
     attemptsBeforeDecay := attemptsBeforeDecay t;
     maximumAttempts := maximumAttempts t;
     connectionDelay := v;
     handleExceptions := handleExceptions t;
     maxDelayBetweenReconnection := maxDelayBetweenReconnection t;
     inlineMeta := inlineMeta t;
     currentRetries := currentRetries t; totalRetries := totalRetries t;
     buffer := buffer t; loggingEnabled := loggingEnabled t;
     structuredData := structuredData t; stream := stream t |}.

Definition set_currentRetries (v : Z) (t : Transport) : Transport :=
  {| name := name t; level := level t; host := host t; port := port t;
     token := token t; tags := tags t; hostname := hostname t; pid := pid t;
     program := program t; logFormat := logFormat t;
     attemptsBeforeDecay := attemptsBeforeDecay t;
     maximumAttempts := maximumAttempts t;
     connectionDelay := connectionDelay t;
     handleExceptions := handleExceptions t;
     maxDelayBetweenReconnection := maxDelayBetweenReconnection t;
     inlineMeta := inlineMeta t;
     currentRetries := v; totalRetries := totalRetries t;
     buffer := buffer t; loggingEnabled := loggingEnabled t;
     structuredData := structuredData t; stream := stream t |}.

Definition set_totalRetries (v : Z) (t : Transport) : Transport :=
  {| name := name t; level := level t; host := host t; port := port t;
     token := token t; tags := tags t; hostname := hostname t; pid := pid t;
     program := program t; logFormat := logFormat t;
     attemptsBeforeDecay := attemptsBeforeDecay t;
     maximumAttempts := maximumAttempts t;
     connectionDelay := connectionDelay t;
     handleExceptions := handleExceptions t;
     maxDelayBetweenReconnection := maxDelayBetweenReconnection t;
     inlineMeta := inlineMeta t;
     currentRetries := currentRetries t; totalRetries := v;
     buffer := buffer t; loggingEnabled := loggingEnabled t;
     structuredData := structuredData t; stream := stream t |}.

Definition set_buffer (v : string) (t : Transport) : Transport :=
  {| name := name t; level := level t; host := host t; port := port t;
     token := token t; tags := tags t; hostname := hostname t; pid := pid t;
     program := program t; logFormat := logFormat t;
     attemptsBeforeDecay := attemptsBeforeDecay t;
     maximumAttempts := maximumAttempts t;
     connectionDelay := connectionDelay t;
     handleExceptions := handleExceptions t;
     maxDelayBetweenReconnection := maxDelayBetweenReconnection t;
     inlineMeta := inlineMeta t;
     currentRetries := currentRetries t; totalRetries := totalRetries t;
     buffer := v; loggingEnabled := loggingEnabled t;
     structuredData := structuredData t; stream := stream t |}.

Definition set_loggingEnabled (v : bool) (t : Transport) : Transport :=
  {| name := name t; level := level t; host := host t; port := port t;
     token := token t; tags := tags t; hostname := hostname t; pid := pid t;
     program := program t; logFormat := logFormat t;
     attemptsBeforeDecay := attemptsBeforeDecay t;
     maximumAttempts := maximumAttempts t;
     connectionDelay := connectionDelay t;
     handleExceptions := handleExceptions t;
     maxDelayBetweenReconnection := maxDelayBetweenReconnection t;
     inlineMeta := inlineMeta t;
     currentRetries := currentRetries t; totalRetries := totalRetries t;
     buffer := buffer t; loggingEnabled := v;
     structuredData := structuredData t; stream := stream t |}.

Definition set_structuredData (v : string) (t : Transport) : Transport :=
  {| name := name t; level := level t; host := host t; port := port t;
     token := token t; tags := tags t; hostname := hostname t; pid := pid t;
     program := program t; logFormat := logFormat t;
     attemptsBeforeDecay := attemptsBeforeDecay t;
     maximumAttempts := maximumAttempts t;
     connectionDelay := connectionDelay t;
     handleExceptions := handleExceptions t;
     maxDelayBetweenReconnection := maxDelayBetweenReconnection t;
     inlineMeta := inlineMeta t;
     currentRetries := currentRetries t; totalRetries := totalRetries t;
     buffer := buffer t; loggingEnabled := loggingEnabled t;
     structuredData := v; stream := stream t |}.

Definition set_stream (v : option nat) (t : Transport) : Transport :=
  {| name := name t; level := level t; host := host t; port := port t;
     token := token t; tags := tags t; hostname := hostname t; pid := pid t;
     program := program t; logFormat := logFormat t;
     attemptsBeforeDecay := attemptsBeforeDecay t;
     maximumAttempts := maximumAttempts t;
     connectionDelay := connectionDelay t;
     handleExceptions := handleExceptions t;
     maxDelayBetweenReconnection := maxDelayBetweenReconnection t;
     inlineMeta := inlineMeta t;
     currentRetries := currentRetries t; totalRetries := totalRetries t;
     buffer := buffer t; loggingEnabled := loggingEnabled t;
     structuredData := structuredData t; stream := v |}.

(** Changes to the rest of the world. *)
Definition on_self (f : Transport → Transport) (w : World) : World :=
  {| self := f (self w); sockets := sockets w; emitted := emitted w;
     timers := timers w; acks := acks w |}.

Definition set_sockets (l : list Socket) (w : World) : World :=
  {| self := self w; sockets := l; emitted := emitted w;
     timers := timers w; acks := acks w |}.

(** [self.emit(...)] *)
Definition emit (e : Event) (w : World) : World :=
  {| self := self w; sockets := sockets w; emitted := emitted w ++ [e];
     timers := timers w; acks := acks w |}.

(** [setTimeout(retry, delay)] *)
Definition setTimeout (delay : Z) (w : World) : World :=
  {| self := self w; sockets := sockets w; emitted := emitted w;
     timers := timers w ++ [delay]; acks := acks w |}.

Definition set_timers (l : list Z) (w : World) : World :=
  {| self := self w; sockets := sockets w; emitted := emitted w;
     timers := l; acks := acks w |}.

Definition record_call (f : string) (args : list jsval) (w : World) : World :=
  {| self := self w; sockets := sockets w; emitted := emitted w;
     timers := timers w; acks := acks w ++ [(f, args)] |}.

Definition set_writable (b : bool) (s : Socket) : Socket :=
  {| remote_port := remote_port s; remote_host := remote_host s;
     rejectUnauthorized := rejectUnauthorized s;
     writable := b; written := written s |}.

(** [socket.write(chunk)] *)
Definition socket_write (chunk : string) (s : Socket) : Socket :=
  {| remote_port := remote_port s; remote_host := remote_host s;
     rejectUnauthorized := rejectUnauthorized s;
     writable := writable s; written := written s ++ [chunk] |}.

(** [self.stream.write(chunk)]. The code writes only where
    [self.stream] is set: after the test in [sendMessage], and in
    [onConnected], which a socket calls. *)
Definition stream_write (chunk : string) (w : World) : World :=
  match stream (self w) with
  | Some h => set_sockets (alter (socket_write chunk) h (sockets w)) w
  | None => w
  end.

(** [this.stream && this.stream.writable] *)
Definition stream_writable (w : World) : bool :=
  match stream (self w) with
  | Some h => default false (writable <$> sockets w !! h)
  | None => false
  end.

(** What the socket in [self.stream] has been given to write. *)
Definition wire (w : World) : list string :=
  match stream (self w) with
  | Some h => default [] (written <$> sockets w !! h)
  | None => []
  end.

Definition dquote : string := String "034"%char EmptyString.
Definition CRLF : string := String "013"%char (String "010"%char EmptyString).

(** [meta[k] = v] on the own properties of an object: an existing
    property keeps its place, a new one goes last. *)
Fixpoint assign (k : string) (v : jsval) (props : list (string * jsval))
  : list (string * jsval) :=
  match props with
  | [] => [(k, v)]
  | (k', v') :: rest =>
      if String.eqb k' k then (k, v) :: rest else (k', v') :: assign k v rest
  end.

(** [o[k] = v]; on a primitive the assignment is dropped, and a function
    keeps no property that [JSON.stringify] would look at. *)
Definition set_prop (o : jsval) (k : string) (v : jsval) : jsval :=
  match o with
  | JObj props => JObj (assign k v props)
  | _ => o
  end.

(** [o[k]] on the own properties of an object. *)
Fixpoint prop_lookup (k : string) (props : list (string * jsval))
  : option jsval :=
  match props with
  | [] => None
  | (k', v) :: rest => if String.eqb k' k then Some v else prop_lookup k rest
  end.

(** One call of [log], with the time [new Date().toISOString()] gives
    while it runs. *)
Record LogCall := {
  c_now : string;
  c_level : string;
  c_msg : jsval;
  c_meta : jsval;
  c_callback : jsval
}.

(** What [new Loggly(options)] ends in. *)
Inductive Construction :=
| Thrown (e : string)
| Constructed (w : World).

(** *** Stand-ins for Node, used to run the model on examples *)

(** [JSON.stringify] on numbers, booleans, [null], strings that need no
    escaping and objects of these. *)
Fixpoint sample_stringify (v : jsval) : string :=
  match v with
  | JStr s => dquote +:+ s +:+ dquote
  | JNum z => decimal z
  | JBool true => "true"
  | JBool false => "false"
  | JObj props =>
      "{" +:+
      (fix members (ps : list (string * jsval)) : string :=
         match ps with
         | [] => EmptyString
         | (k, x) :: rest =>
             dquote +:+ k +:+ dquote +:+ ":" +:+ sample_stringify x +:+
             match rest with
             | [] => EmptyString
             | _ :: _ => "," +:+ members rest
             end
         end) props
      +:+ "}"
  | _ => "null"
  end.

(** [util.inspect] on numbers, booleans, [null] and [undefined]. *)
Definition sample_inspect (v : jsval) : string := ToString v.

Section Transport.

(** [os.hostname()] and [process.pid] *)
Variable os_hostname : string.
Variable process_pid : Z.
(** The text [util.inspect] and [JSON.stringify] give for a value. *)
Variable util_inspect : jsval → string.
Variable JSON_stringify : jsval → string.
(** What a socket answers to [writable] between [tls.connect] and the
    end of its handshake. *)
Variable connecting_writable : bool.

(** *** The constructor (index.js, lines 46-176) *)

(** The default of [options.logFormat] (lines 75-79). *)
Definition defaultLogFormat : Formatter := λ message meta,
  let meta := if truthy meta then meta else JObj [] in
  let meta := if truthy message then set_prop meta "log_msg" message else meta in
  JSON_stringify meta.

(** Lines 110-114. *)
Definition make_structuredData (t : Transport) : string :=
  let sd := "[" +:+ supplied_text (token t) +:+ "@41058" in
  let sd :=
    foldl (λ acc tag, acc +:+ " tag=" +:+ dquote +:+ tag +:+ dquote) sd (tags t) in
  sd +:+ "]".

(** [connectStream] (lines 125-159): a new socket replaces [self.stream].
    Its [error] and [end] listeners and the [onConnected] callback are the
    handlers below. Connection failures arrive as [error] events. *)
Definition connectStream (w : World) : World :=
  let socket :=
    {| remote_port := port (self w); remote_host := host (self w);
       rejectUnauthorized := false;
       writable := connecting_writable; written := [] |} in
  on_self (set_stream (Some (length (sockets w))))
          (set_sockets (sockets w ++ [socket]) w).

(** Lines 47-102: the fields of [self] before the token is checked. *)
Definition initial_self (options : Options) : Transport :=
  {| name := "Loggly";
     level := or_default (o_level options) "info";
     host := or_default (o_host options) "logs-01.loggly.com";
     port := or_default (o_port options) 6514;
     token := o_token options;
     tags := or_default (o_tags options) [];
     hostname := or_default (o_hostname options) os_hostname;
     pid := or_default (supplied_map JStr (o_pid options)) (JNum process_pid);
     program := or_default (o_program options) "default";
     logFormat := or_default (o_logFormat options) defaultLogFormat;
     attemptsBeforeDecay := or_default (o_attemptsBeforeDecay options) 5;
     maximumAttempts := or_default (o_maximumAttempts options) 25;
     connectionDelay := or_default (o_connectionDelay options) 1000;
     handleExceptions := or_default (o_handleExceptions options) false;
     maxDelayBetweenReconnection :=
       or_default (o_maxDelayBetweenReconnection options) 60000;
     inlineMeta := or_default (o_inlineMeta options) false;
     currentRetries := 0;
     totalRetries := 0;
     buffer := EmptyString;
     loggingEnabled := true;
     structuredData := EmptyString;
     stream := None |}.

(** Lines 109-122: the structured data is set and the first connection
    is opened. [tls.connect] is taken to return a socket, so the [catch]
    of lines 119-122 is not entered. *)
Definition open_connection (self : Transport) : World :=
  let self := set_structuredData (make_structuredData self) self in
  connectStream
    {| self := self; sockets := []; emitted := []; timers := []; acks := [] |}.

Definition Loggly (options : option Options) : Construction :=
  let options := default no_options options in
  let self := initial_self options in
  if negb (supplied_truthy (token self)) then
    Thrown "Missing required parameters: token"
  else Constructed (open_connection self).

(** *** Reconnection (lines 128-158) *)

(** The closure given to [setTimeout] (lines 133-152). *)
Definition retry (w : World) : World :=
  let w := on_self (λ t, set_currentRetries (currentRetries t + 1) t) w in
  let w := on_self (λ t, set_totalRetries (totalRetries t + 1) t) w in
  let w :=
    if (connectionDelay (self w) <? maxDelayBetweenReconnection (self w))
       && (currentRetries (self w) >=? attemptsBeforeDecay (self w))
    then
      on_self (set_currentRetries 0)
        (on_self (λ t, set_connectionDelay (connectionDelay t * 2) t) w)
    else w in
  let w := connectStream w in
  if loggingEnabled (self w)
     && (totalRetries (self w) >=? maximumAttempts (self w))
  then
    emit (EvError "Max entries eclipsed, disabling buffering")
         (on_self (set_loggingEnabled false) w)
  else w.

(** The [error] listener of a socket (lines 128-153). *)
Definition stream_on_error (err : string) (w : World) : World :=
  let w := emit (EvError err) w in
  setTimeout (connectionDelay (self w)) w.

(** The [end] listener of a socket (lines 156-158). *)
Definition stream_on_end (w : World) : World :=
  connectStream w.

(** The pending timer at position [i] expires. *)
Definition timer_fires (i : nat) (w : World) : option World :=
  match timers w !! i with
  | Some _ => Some (retry (set_timers (delete i (timers w)) w))
  | None => None
  end.

(** [onConnected] (lines 161-175). *)
Definition onConnected (w : World) : World :=
  let w := on_self (set_loggingEnabled true) w in
  let w := on_self (set_currentRetries 0) w in
  let w := on_self (set_totalRetries 0) w in
  let w := on_self (set_connectionDelay 1000) w in
  let w :=
    emit (EvConnect ("Connected to Loggly at " +:+ host (self w) +:+ ":"
                     +:+ decimal (port (self w)))) w in
  if is_truthy (buffer (self w)) then
    on_self (set_buffer EmptyString) (stream_write (buffer (self w)) w)
  else w.

(** The handshake of socket [h] completes: the socket is writable and
    Node calls [onConnected]. *)
Definition secureConnect (h : nat) (w : World) : World :=
  onConnected (set_sockets (alter (set_writable true) h (sockets w)) w).

(** *** Sending (lines 202-258) *)

(** The wire record built in [sendMessage] (lines 240-251). *)
Definition encode (t : Transport) (now level : string) (message meta : jsval)
  : string :=
  "<" +:+ ToString (priVal level) +:+ ">1 " +:+
  now +:+ " " +:+
  hostname t +:+ " " +:+
  program t +:+ " " +:+
  ToString (pid t) +:+ " " +:+
  dquote +:+ "-" +:+ dquote +:+ " " +:+
  structuredData t +:+ " " +:+
  logFormat t message meta +:+
  CRLF.

Definition sendMessage (now level : string) (message meta : jsval) (w : World)
  : World :=
  let msg := encode (self w) now level message meta in
  if stream_writable w then stream_write msg w
  else if loggingEnabled (self w) then
    on_self (λ t, set_buffer (buffer t +:+ msg) t) w
  else w.

(** [callback(null, true)] *)
Definition call_callback (callback : jsval) (w : World) : World * Completion :=
  match callback with
  | JFun f => (record_call f [JNull; JBool true] w, Normal)
  | _ => (w, Throw "TypeError: callback is not a function")
  end.

(** The first lines of [log]: a function in the place of [meta] is the
    callback when no callback follows it. *)
Definition swap_meta (meta callback : jsval) : bool :=
  String.eqb (typeof meta) "function" && negb (truthy callback).

Definition log (c : LogCall) (w : World) : World * Completion :=
  let callback := if swap_meta (c_meta c) (c_callback c)
                  then c_meta c else c_callback c in
  let meta := if swap_meta (c_meta c) (c_callback c)
              then JObj [] else c_meta c in
  if negb (loggingEnabled (self w)) then call_callback callback w
  else
    let output := c_msg c in
    let output := if negb (String.eqb (typeof output) "string")
                  then JStr (util_inspect output) else output in
    let w := sendMessage (c_now c) (c_level c) (c_msg c) meta w in
    call_callback callback w.

(** The metadata and the record of a call, as [log] hands them on. *)
Definition call_meta (c : LogCall) : jsval :=
  if swap_meta (c_meta c) (c_callback c) then JObj [] else c_meta c.

Definition call_record (t : Transport) (c : LogCall) : string :=
  encode t (c_now c) (c_level c) (c_msg c) (call_meta c).

(** Several calls of [log] one after the other. *)
Definition logs (cs : list LogCall) (w : World) : World :=
  foldl (λ w c, fst (log c w)) w cs.

(** *** What the surroundings do between calls *)

(** Socket [h] fails: Node destroys it, so that it is no longer writable,
    and runs its [error] listener. *)
Definition stream_error (h : nat) (err : string) (w : World) : World :=
  stream_on_error err (set_sockets (alter (set_writable false) h (sockets w)) w).

(** The steps on the way to a new connection: a retry timer expires, a
    socket ends, a socket reports an error. *)
Inductive Reconnect :=
| RTimer
| REnd
| RError (err : string).

Definition reconnect (r : Reconnect) (w : World) : World :=
  match r with
  | RTimer => retry w
  | REnd => stream_on_end w
  | RError err => stream_on_error err w
  end.

Definition reconnects (rs : list Reconnect) (w : World) : World :=
  foldl (λ w r, reconnect r w) w rs.

(** The bytes of a list of chunks, and the records of a list of calls. *)
Definition bytes (chunks : list string) : string :=
  foldr String.append EmptyString chunks.

Definition call_records (t : Transport) (cs : list LogCall) : string :=
  bytes (call_record t <$> cs).

(** What [onConnected] writes for a buffer [b]: one chunk, or nothing
    for the empty buffer. *)
Definition flushed (b : string) : list string :=
  if is_truthy b then [b] else [].

(** The handshake of the socket in [self.stream] completes. *)
Definition handshake_completes (w : World) : World :=
  match stream (self w) with
  | Some h => secureConnect h w
  | None => w
  end.

(** [self.stream] holds one of the sockets made so far. *)
Definition stream_open (w : World) : Prop :=
  ∃ h, stream (self w) = Some h ∧ (h < length (sockets w))%nat.

(** The fields of [self] that the encoder reads. *)
Definition same_header (t t' : Transport) : Prop :=
  hostname t' = hostname t
  ∧ program t' = program t
  ∧ pid t' = pid t
  ∧ structuredData t' = structuredData t
  ∧ logFormat t' = logFormat t.

(** The callback [log] ends up calling. *)
Definition call_callback_of (c : LogCall) : jsval :=
  if swap_meta (c_meta c) (c_callback c) then c_meta c else c_callback c.

(** The text one tag adds to the structured data (line 112). *)
Definition tag_text (tag : string) : string :=
  " tag=" +:+ dquote +:+ tag +:+ dquote.

(** *** Runs of the transport

    What can happen to a constructed transport: a call of [log], the end
    of the handshake of a socket, an error or the end of a socket, the
    expiry of a pending timer, and Node changing what a socket answers to
    [writable]. Socket events come from sockets that exist, timer
    expiries from timers that are pending. *)
Inductive Input :=
| InLog (c : LogCall)
| InSecureConnect (h : nat)
| InError (h : nat) (err : string)
| InEnd (h : nat)
| InTimer (i : nat)
| InWritable (h : nat) (b : bool).

Definition step (i : Input) (w : World) : World :=
  match i with
  | InLog c => fst (log c w)
  | InSecureConnect h =>
      if (h <? length (sockets w))%nat then secureConnect h w else w
  | InError h err =>
      if (h <? length (sockets w))%nat then stream_error h err w else w
  | InEnd h =>
      if (h <? length (sockets w))%nat then stream_on_end w else w
  | InTimer i => default w (timer_fires i w)
  | InWritable h b => set_sockets (alter (set_writable b) h (sockets w)) w
  end.

Definition run (inputs : list Input) (w : World) : World :=
  foldl (λ w i, step i w) w inputs.

(** The acknowledgement a step gives. *)
Definition step_acks (i : Input) : list (string * list jsval) :=
  match i with
  | InLog c =>
      match call_callback_of c with
      | JFun k => [(k, [JNull; JBool true])]
      | _ => []
      end
  | _ => []
  end.



(** The settings of [self] that no handler assigns. *)
Definition same_settings (t t' : Transport) : Prop :=
  name t' = name t
  ∧ level t' = level t
  ∧ host t' = host t
  ∧ port t' = port t
  ∧ token t' = token t
  ∧ tags t' = tags t
  ∧ hostname t' = hostname t
  ∧ pid t' = pid t
  ∧ program t' = program t
  ∧ logFormat t' = logFormat t
  ∧ attemptsBeforeDecay t' = attemptsBeforeDecay t
  ∧ maximumAttempts t' = maximumAttempts t
  ∧ handleExceptions t' = handleExceptions t
  ∧ maxDelayBetweenReconnection t' = maxDelayBetweenReconnection t
  ∧ inlineMeta t' = inlineMeta t
  ∧ structuredData t' = structuredData t.

(** Every socket was opened to the configured endpoint without
    certificate checks, and [self.stream] is the newest of them. *)
Definition sockets_in_order (w : World) : Prop :=
  stream (self w) = Some (length (sockets w) - 1)%nat
  ∧ (0 < length (sockets w))%nat
  ∧ Forall (λ s, remote_port s = port (self w)
                 ∧ remote_host s = host (self w)
                 ∧ rejectUnauthorized s = false) (sockets w).

(** What a step may do to a socket that exists: it keeps its endpoint,
    and it keeps what was written to it unless it is the socket in
    [self.stream]. *)
Definition socket_kept (current : option nat) (h : nat) (s s' : Socket) : Prop :=
  remote_port s' = remote_port s
  ∧ remote_host s' = remote_host s
  ∧ rejectUnauthorized s' = rejectUnauthorized s
  ∧ (current ≠ Some h → written s' = written s).

Definition sockets_kept (current : option nat) (l l' : list Socket) : Prop :=
  length l' = length l
  ∧ ∀ h s, l !! h = Some s → ∃ s', l' !! h = Some s' ∧ socket_kept current h s s'.

(** What a step may do to the sockets: keep them all with [self.stream]
    as it is, or open one more, which becomes [self.stream]. *)
Definition sockets_evolve (w w' : World) : Prop :=
  (stream (self w') = stream (self w)
   ∧ sockets_kept (stream (self w)) (sockets w) (sockets w'))
  ∨ (stream (self w') = Some (length (sockets w))
     ∧ sockets w'
       = sockets w ++
         [{| remote_port := port (self w); remote_host := host (self w);
             rejectUnauthorized := false;
             writable := connecting_writable; written := [] |}]).

(** The notification of lines 148-151. *)
Definition buffering_disabled : Event :=
  EvError "Max entries eclipsed, disabling buffering".

(** *** Sample configurations and calls *)

(** [{token: 'abc', tags: ['tag1', 'tag2']}], as in the README. *)
Definition readme_options : Options := {|
  o_level := Falsy f_undefined;
  o_host := Falsy f_undefined;
  o_port := Falsy f_undefined;
  o_token := Val "abc";
  o_tags := Val ["tag1"; "tag2"];
  o_hostname := Falsy f_undefined;
  o_pid := Falsy f_undefined;
  o_program := Falsy f_undefined;
  o_logFormat := Falsy f_undefined;
  o_attemptsBeforeDecay := Falsy f_undefined;
  o_maximumAttempts := Falsy f_undefined;
  o_connectionDelay := Falsy f_undefined;
  o_handleExceptions := Falsy f_undefined;
  o_maxDelayBetweenReconnection := Falsy f_undefined;
  o_inlineMeta := Falsy f_undefined
|}.

(** [{token: 'abc', port: 0, program: '', maximumAttempts: 0,
      connectionDelay: 0}] *)
Definition zeroed_options : Options := {|
  o_level := Falsy f_undefined;
  o_host := Falsy f_undefined;
  o_port := Val 0;
  o_token := Val "abc";
  o_tags := Falsy f_undefined;
  o_hostname := Falsy f_undefined;
  o_pid := Falsy f_undefined;
  o_program := Val EmptyString;
  o_logFormat := Falsy f_undefined;
  o_attemptsBeforeDecay := Falsy f_undefined;
  o_maximumAttempts := Val 0;
  o_connectionDelay := Val 0;
  o_handleExceptions := Falsy f_undefined;
  o_maxDelayBetweenReconnection := Falsy f_undefined;
  o_inlineMeta := Falsy f_undefined
|}.

(** [{token: 'abc', connectionDelay: 500, maximumAttempts: 3,
      logFormat: function(message, meta) { return typeof message }}] *)
Definition tuned_options : Options := {|
  o_level := Falsy f_undefined;
  o_host := Falsy f_undefined;
  o_port := Falsy f_undefined;
  o_token := Val "abc";
  o_tags := Falsy f_undefined;
  o_hostname := Falsy f_undefined;
  o_pid := Falsy f_undefined;
  o_program := Falsy f_undefined;
  o_logFormat := Val (λ message _, typeof message);
  o_attemptsBeforeDecay := Falsy f_undefined;
  o_maximumAttempts := Val 3;
  o_connectionDelay := Val 500;
  o_handleExceptions := Falsy f_undefined;
  o_maxDelayBetweenReconnection := Falsy f_undefined;
  o_inlineMeta := Falsy f_undefined
|}.

(** The transports these give once constructed. *)
Definition readme_world : World := open_connection (initial_self readme_options).
Definition tuned_world : World := open_connection (initial_self tuned_options).

(** [log(level, msg, {}, done)] at a fixed time. *)
Definition call (now level : string) (msg : jsval) : LogCall :=
  {| c_now := now; c_level := level; c_msg := msg; c_meta := JObj [];
     c_callback := JFun "done" |}.

Definition call_A : LogCall := call "2015-01-01T00:00:00.000Z" "info" (JStr "A").
Definition call_B : LogCall := call "2015-01-01T00:00:01.000Z" "error" (JStr "B").
Definition call_C : LogCall := call "2015-01-01T00:00:02.000Z" "debug" (JStr "C").
Definition call_42 : LogCall := call "2015-01-01T00:00:03.000Z" "info" (JNum 42).

(** [log('info', 'A', {})] and [log('info', 'A', done)]. *)
Definition call_without_callback : LogCall :=
  {| c_now := "2015-01-01T00:00:04.000Z"; c_level := "info";
     c_msg := JStr "A"; c_meta := JObj []; c_callback := JUndefined |}.

Definition call_three_arguments : LogCall :=
  {| c_now := "2015-01-01T00:00:05.000Z"; c_level := "info";
     c_msg := JStr "A"; c_meta := JFun "done"; c_callback := JUndefined |}.

(** The first socket fails, A and B are logged, the retry timer opens a
    second socket, its handshake completes, C is logged. *)
Definition sample_run : list Input :=
  [InError 0 "ECONNRESET"; InLog call_A; InLog call_B; InTimer 0;
   InSecureConnect 1; InLog call_C].



(** ** Properties *)

Ltac unfold_retry :=
  unfold retry, connectStream, on_self, emit, set_sockets; cbn.

(** *** The retry closure: counting, decay, end of buffering *)

Lemma retry_totalRetries w :
  totalRetries (self (retry w)) = totalRetries (self w) + 1.
Proof. unfold_retry. repeat case_match; reflexivity. Qed.

Lemma retry_limits w :
  maxDelayBetweenReconnection (self (retry w))
    = maxDelayBetweenReconnection (self w)
  ∧ attemptsBeforeDecay (self (retry w)) = attemptsBeforeDecay (self w)
  ∧ maximumAttempts (self (retry w)) = maximumAttempts (self w).
Proof. unfold_retry. repeat case_match; auto. Qed.

Lemma retry_buffer w : buffer (self (retry w)) = buffer (self w).
Proof. unfold_retry. repeat case_match; reflexivity. Qed.

Lemma retry_decays w :
  connectionDelay (self w) < maxDelayBetweenReconnection (self w) →
  attemptsBeforeDecay (self w) ≤ currentRetries (self w) + 1 →
  connectionDelay (self (retry w)) = connectionDelay (self w) * 2
  ∧ currentRetries (self (retry w)) = 0.
Proof.
  intros Hlt Hge. unfold_retry.
  destruct (Z.ltb_spec (connectionDelay (self w))
              (maxDelayBetweenReconnection (self w))); [| lia].
  destruct (Z.geb_spec (currentRetries (self w) + 1)
              (attemptsBeforeDecay (self w))); [| lia].
  cbn. repeat case_match; auto.
Qed.

Lemma retry_keeps_delay w :
  ¬ (connectionDelay (self w) < maxDelayBetweenReconnection (self w)
     ∧ attemptsBeforeDecay (self w) ≤ currentRetries (self w) + 1) →
  connectionDelay (self (retry w)) = connectionDelay (self w)
  ∧ currentRetries (self (retry w)) = currentRetries (self w) + 1.
Proof.
  intros Hn. unfold_retry.
  destruct (Z.ltb_spec (connectionDelay (self w))
              (maxDelayBetweenReconnection (self w)));
    destruct (Z.geb_spec (currentRetries (self w) + 1)
                (attemptsBeforeDecay (self w)));
    try lia; cbn; repeat case_match; auto.
Qed.

Lemma retries_at_maximum n w :
  maxDelayBetweenReconnection (self w) ≤ connectionDelay (self w) →
  connectionDelay (self (Nat.iter n retry w)) = connectionDelay (self w)
  ∧ maxDelayBetweenReconnection (self (Nat.iter n retry w))
      = maxDelayBetweenReconnection (self w).
Proof.
  intros Hmax. induction n as [| n [IHd IHm]]; [done |].
  rewrite Nat.iter_succ. destruct (retry_limits (Nat.iter n retry w)) as (-> & _ & _).
  split; [| done].
  destruct (retry_keeps_delay (Nat.iter n retry w)) as [-> _]; [lia | done].
Qed.

(** C2. Each run of the retry closure adds one to [totalRetries] and to
    [currentRetries]; then, exactly when the delay is below
    [maxDelayBetweenReconnection] and the incremented [currentRetries] has
    reached [attemptsBeforeDecay], the delay doubles (without a cap) and
    [currentRetries] goes back to 0; once the delay has reached the
    maximum, no number of further retries changes it. *)
Theorem retry_counts_and_decays (w : World) :
  let t := self w in
  let t' := self (retry w) in
  totalRetries t' = totalRetries t + 1
  ∧ (connectionDelay t < maxDelayBetweenReconnection t
     ∧ attemptsBeforeDecay t ≤ currentRetries t + 1 →
     connectionDelay t' = connectionDelay t * 2 ∧ currentRetries t' = 0)
  ∧ (¬ (connectionDelay t < maxDelayBetweenReconnection t
        ∧ attemptsBeforeDecay t ≤ currentRetries t + 1) →
     connectionDelay t' = connectionDelay t
     ∧ currentRetries t' = currentRetries t + 1)
  ∧ (maxDelayBetweenReconnection t ≤ connectionDelay t →
     ∀ n, connectionDelay (self (Nat.iter n retry w)) = connectionDelay t).
Proof.
  cbv zeta. split; [apply retry_totalRetries |].
  split; [intros [Hlt Hge]; by apply retry_decays |].
  split; [apply retry_keeps_delay |].
  intros Hmax n. by apply retries_at_maximum.
Qed.

(** The doubling is not capped: with the defaults the delay passes the
    maximum of 60000 once, at 64000, and stays there. *)
Example retry_delay_passes_maximum_once :
  connectionDelay (self (Nat.iter 25 retry readme_world)) = 32000
  ∧ connectionDelay (self (Nat.iter 30 retry readme_world)) = 64000
  ∧ connectionDelay (self (Nat.iter 90 retry readme_world)) = 64000.
Proof. vm_compute. auto. Qed.

(** With the defaults, five failed attempts take the delay from 1000 to
    2000 and leave the retry counter at 0. *)
Example retry_five_times :
  connectionDelay (self (Nat.iter 4 retry readme_world)) = 1000
  ∧ currentRetries (self (Nat.iter 4 retry readme_world)) = 4
  ∧ connectionDelay (self (Nat.iter 5 retry readme_world)) = 2000
  ∧ currentRetries (self (Nat.iter 5 retry readme_world)) = 0
  ∧ totalRetries (self (Nat.iter 5 retry readme_world)) = 5.
Proof. vm_compute. auto 6. Qed.

Lemma retry_loggingEnabled w :
  loggingEnabled (self (retry w))
  = loggingEnabled (self w)
    && negb (totalRetries (self w) + 1 >=? maximumAttempts (self w)).
Proof.
  unfold_retry. repeat (case_match; cbn in * );
    destruct (loggingEnabled (self w)),
      (totalRetries (self w) + 1 >=? maximumAttempts (self w));
    cbn in *; congruence.
Qed.

Lemma retry_emitted w :
  emitted (retry w)
  = emitted w ++
    if loggingEnabled (self w)
       && (totalRetries (self w) + 1 >=? maximumAttempts (self w))
    then [buffering_disabled] else [].
Proof.
  unfold_retry. repeat (case_match; cbn in * );
    rewrite ?app_nil_r; first [reflexivity | congruence].
Qed.

Lemma retry_disables w :
  loggingEnabled (self w) = true →
  maximumAttempts (self w) ≤ totalRetries (self w) + 1 →
  loggingEnabled (self (retry w)) = false
  ∧ emitted (retry w) = emitted w ++ [buffering_disabled].
Proof.
  intros Hen Hmax. rewrite retry_loggingEnabled, retry_emitted, Hen.
  by destruct (Z.geb_spec (totalRetries (self w) + 1) (maximumAttempts (self w)));
    [| lia].
Qed.

Lemma retry_stays_enabled w :
  loggingEnabled (self w) = true →
  totalRetries (self w) + 1 < maximumAttempts (self w) →
  loggingEnabled (self (retry w)) = true ∧ emitted (retry w) = emitted w.
Proof.
  intros Hen Hmax. rewrite retry_loggingEnabled, retry_emitted, Hen.
  destruct (Z.geb_spec (totalRetries (self w) + 1) (maximumAttempts (self w)));
    [lia |].
  by rewrite app_nil_r.
Qed.

Lemma retry_stays_disabled w :
  loggingEnabled (self w) = false →
  loggingEnabled (self (retry w)) = false ∧ emitted (retry w) = emitted w.
Proof.
  intros Hen. rewrite retry_loggingEnabled, retry_emitted, Hen.
  by rewrite app_nil_r.
Qed.

Lemma retries_disable_once n w :
  loggingEnabled (self w) = true →
  maximumAttempts (self w) ≤ totalRetries (self w) + 1 →
  loggingEnabled (self (Nat.iter (S n) retry w)) = false
  ∧ emitted (Nat.iter (S n) retry w) = emitted w ++ [buffering_disabled]
  ∧ buffer (self (Nat.iter (S n) retry w)) = buffer (self w).
Proof.
  intros Hen Hmax. induction n as [| n (IHe & IHm & IHb)].
  - cbn. destruct (retry_disables w) as [-> ->]; auto using retry_buffer.
  - rewrite Nat.iter_succ.
    destruct (retry_stays_disabled (Nat.iter (S n) retry w) IHe) as [-> ->].
    by rewrite retry_buffer.
Qed.

(** *** [log] and [sendMessage] *)

Lemma call_callback_rest callback w :
  self (fst (call_callback callback w)) = self w
  ∧ sockets (fst (call_callback callback w)) = sockets w
  ∧ emitted (fst (call_callback callback w)) = emitted w
  ∧ timers (fst (call_callback callback w)) = timers w.
Proof. by destruct callback. Qed.

Lemma sendMessage_rest now lvl message meta w :
  acks (sendMessage now lvl message meta w) = acks w
  ∧ emitted (sendMessage now lvl message meta w) = emitted w
  ∧ timers (sendMessage now lvl message meta w) = timers w.
Proof.
  unfold sendMessage, stream_write.
  repeat case_match; auto.
Qed.

Lemma swap_meta_callable meta f : swap_meta meta (JFun f) = false.
Proof. unfold swap_meta. cbn. apply andb_false_r. Qed.

Lemma log_disabled c w :
  loggingEnabled (self w) = false →
  self (fst (log c w)) = self w ∧ sockets (fst (log c w)) = sockets w.
Proof.
  intros Hen. unfold log. rewrite Hen. cbn.
  by destruct (call_callback_rest
                 (if swap_meta (c_meta c) (c_callback c)
                  then c_meta c else c_callback c) w) as (-> & -> & _).
Qed.

(** C4. When the incremented [totalRetries] has reached
    [maximumAttempts] while buffering is enabled, the retry closure
    disables buffering and emits one error notification saying so; however
    many retries follow, that notification stays the only one and the
    buffer keeps its contents. Below the maximum nothing is disabled. Once
    buffering is disabled, a retry emits nothing and changes neither the
    flag nor the buffer, and [log] leaves the buffer and the sockets as
    they are. *)
Theorem buffering_disabled_once (w : World) :
  (loggingEnabled (self w) = true →
   maximumAttempts (self w) ≤ totalRetries (self w) + 1 →
   ∀ n, let w' := Nat.iter (S n) retry w in
        loggingEnabled (self w') = false
        ∧ emitted w' = emitted w ++ [buffering_disabled]
        ∧ buffer (self w') = buffer (self w))
  ∧ (loggingEnabled (self w) = true →
     totalRetries (self w) + 1 < maximumAttempts (self w) →
     loggingEnabled (self (retry w)) = true ∧ emitted (retry w) = emitted w)
  ∧ (loggingEnabled (self w) = false →
     (loggingEnabled (self (retry w)) = false
      ∧ emitted (retry w) = emitted w
      ∧ buffer (self (retry w)) = buffer (self w))
     ∧ ∀ c, buffer (self (fst (log c w))) = buffer (self w)
            ∧ sockets (fst (log c w)) = sockets w
            ∧ emitted (fst (log c w)) = emitted w).
Proof.
  split; [| split].
  - intros Hen Hmax n. by apply retries_disable_once.
  - apply retry_stays_enabled.
  - intros Hen. split.
    + destruct (retry_stays_disabled w Hen) as [-> ->].
      by rewrite retry_buffer.
    + intros c. destruct (log_disabled c w Hen) as [-> ->].
      split; [done |]. split; [done |].
      unfold log. rewrite Hen. cbn. apply call_callback_rest.
Qed.

(** C6. A call of [log] that is given a callback calls it once, with
    [(null, true)], and ends normally, whatever becomes of the message;
    while buffering is disabled the message goes neither to a socket nor
    into the buffer. *)
Theorem log_acknowledges (c : LogCall) (w : World) (k : string) :
  c_callback c = JFun k →
  snd (log c w) = Normal
  ∧ acks (fst (log c w)) = acks w ++ [(k, [JNull; JBool true])]
  ∧ (loggingEnabled (self w) = false →
     sockets (fst (log c w)) = sockets w
     ∧ buffer (self (fst (log c w))) = buffer (self w)).
Proof.
  intros Hcb. split; [| split].
  - unfold log. rewrite Hcb, swap_meta_callable. by case_match.
  - unfold log. rewrite Hcb, swap_meta_callable. case_match; cbn; [done |].
    by destruct (sendMessage_rest (c_now c) (c_level c) (c_msg c) (c_meta c) w)
      as (-> & _).
  - intros Hen. by destruct (log_disabled c w Hen) as [-> ->].
Qed.

(** The same holds when the callback stands in the place of the
    metadata and nothing follows it. *)
Lemma log_acknowledges_callback_as_meta (c : LogCall) (w : World) (k : string) :
  c_meta c = JFun k → truthy (c_callback c) = false →
  snd (log c w) = Normal
  ∧ acks (fst (log c w)) = acks w ++ [(k, [JNull; JBool true])].
Proof.
  intros Hmeta Hcb. unfold log, swap_meta. rewrite Hmeta, Hcb. cbn.
  case_match; cbn; [done |].
  by destruct (sendMessage_rest (c_now c) (c_level c) (c_msg c) (JObj []) w)
    as (-> & _).
Qed.

(** Without a callback the call ends in a TypeError. *)
Lemma log_without_callback (c : LogCall) (w : World) :
  c_meta c = JObj [] → c_callback c = JUndefined →
  snd (log c w) = Throw "TypeError: callback is not a function".
Proof.
  intros Hmeta Hcb. unfold log, swap_meta. rewrite Hmeta, Hcb. cbn.
  by case_match.
Qed.

(** *** Stream end against stream error *)

(** C7. The [end] listener opens a new socket at once: it becomes
    [self.stream], no timer is set, no counter and no delay changes and
    nothing is emitted. The [error] listener opens no socket: it emits the
    error and sets one timer of [connectionDelay] milliseconds, leaving
    the counters alone; the new socket is opened, and the counters are
    incremented, when that timer expires and the retry closure runs. *)
Theorem end_reconnects_at_once_error_after_delay (w : World) (err : string) :
  (let w' := stream_on_end w in
   sockets w' = sockets w ++
     [{| remote_port := port (self w); remote_host := host (self w);
         rejectUnauthorized := false;
         writable := connecting_writable; written := [] |}]
   ∧ stream (self w') = Some (length (sockets w))
   ∧ timers w' = timers w
   ∧ emitted w' = emitted w
   ∧ currentRetries (self w') = currentRetries (self w)
   ∧ totalRetries (self w') = totalRetries (self w)
   ∧ connectionDelay (self w') = connectionDelay (self w))
  ∧ (let w' := stream_on_error err w in
     sockets w' = sockets w
     ∧ self w' = self w
     ∧ timers w' = timers w ++ [connectionDelay (self w)]
     ∧ emitted w' = emitted w ++ [EvError err]
     ∧ timer_fires (length (timers w)) w' = Some (retry (emit (EvError err) w)))
  ∧ (length (sockets (retry w)) = S (length (sockets w))
     ∧ stream (self (retry w)) = Some (length (sockets w))
     ∧ totalRetries (self (retry w)) = totalRetries (self w) + 1).
Proof.
  split; [| split].
  - by cbn.
  - cbn. repeat split.
    unfold timer_fires, stream_on_error, setTimeout. cbn.
    rewrite list_lookup_middle by done.
    by rewrite delete_middle, app_nil_r.
  - split; [| split; [| apply retry_totalRetries]].
    + unfold_retry. repeat case_match; cbn; rewrite length_app; cbn; lia.
    + unfold_retry. by repeat case_match.
Qed.

(** *** An established connection *)

Lemma onConnected_self w :
  let t' := self (onConnected w) in
  loggingEnabled t' = true
  ∧ currentRetries t' = 0
  ∧ totalRetries t' = 0
  ∧ connectionDelay t' = 1000
  ∧ buffer t' = EmptyString.
Proof.
  unfold onConnected, stream_write, on_self, emit. cbn.
  destruct (is_truthy (buffer (self w))) eqn:Hb; cbn.
  - by destruct (stream (self w)).
  - repeat split. unfold is_truthy, string_truthiness in Hb.
    apply negb_false_iff in Hb. by apply String.eqb_eq in Hb.
Qed.

(** C3. At a transport configured with [connectionDelay: 500] the
    constructor stores 500, and the first established connection replaces
    it by 1000: in every state [onConnected] sets the delay to the
    constant of line 166, not to the configured value. The two counters
    go back to 0 as stated. *)
Theorem onConnected_discards_configured_delay :
  Loggly (Some tuned_options) = Constructed tuned_world
  ∧ connectionDelay (self tuned_world) = 500
  ∧ connectionDelay (self (secureConnect 0 tuned_world)) = 1000
  ∧ currentRetries (self (secureConnect 0 tuned_world)) = 0
  ∧ totalRetries (self (secureConnect 0 tuned_world)) = 0
  ∧ (∀ w, connectionDelay (self (onConnected w)) = 1000
          ∧ currentRetries (self (onConnected w)) = 0
          ∧ totalRetries (self (onConnected w)) = 0).
Proof.
  do 5 (split; [reflexivity |]).
  intros w. by destruct (onConnected_self w) as (_ & -> & -> & -> & _).
Qed.

(** *** Order on the wire *)

Lemma string_app_nil_r (s : string) : s +:+ EmptyString = s.
Proof.
  induction s as [| a s IH]; [done |].
  change (String a (s +:+ EmptyString) = String a s). by rewrite IH.
Qed.

Lemma string_app_assoc (a b c : string) : (a +:+ b) +:+ c = a +:+ b +:+ c.
Proof.
  induction a as [| x a IH]; [done |].
  change (String x ((a +:+ b) +:+ c) = String x (a +:+ b +:+ c)).
  by rewrite IH.
Qed.

Lemma string_app_nonempty (a b : string) :
  is_truthy b = true → is_truthy (a +:+ b) = true.
Proof. destruct a; [done |]. by destruct b. Qed.

Lemma bytes_app (l1 l2 : list string) : bytes (l1 ++ l2) = bytes l1 +:+ bytes l2.
Proof.
  induction l1 as [| s l1 IH]; [done |].
  change (s +:+ bytes (l1 ++ l2) = (s +:+ bytes l1) +:+ bytes l2).
  by rewrite IH, string_app_assoc.
Qed.

Lemma bytes_flushed (b : string) : bytes (flushed b) = b.
Proof.
  unfold flushed. destruct (is_truthy b) eqn:Hb; cbn.
  - apply string_app_nil_r.
  - apply negb_false_iff in Hb. by apply String.eqb_eq in Hb.
Qed.

Lemma same_header_refl t : same_header t t.
Proof. by repeat split. Qed.

Lemma same_header_trans t1 t2 t3 :
  same_header t1 t2 → same_header t2 t3 → same_header t1 t3.
Proof.
  intros (? & ? & ? & ? & ?) (? & ? & ? & ? & ?).
  repeat split; congruence.
Qed.

Lemma call_record_header t t' c :
  same_header t t' → call_record t' c = call_record t c.
Proof.
  intros (Hh & Hp & Hpid & Hs & Hf). unfold call_record, encode.
  by rewrite Hh, Hp, Hpid, Hs, Hf.
Qed.


Lemma call_record_nonempty t c : is_truthy (call_record t c) = true.
Proof. done. Qed.

Lemma call_records_nonempty t cs :
  cs ≠ [] → is_truthy (call_records t cs) = true.
Proof. by destruct cs. Qed.

(** While the socket is not writable and buffering is enabled, [log]
    appends the record to the buffer and touches nothing else of [self]. *)
Lemma log_buffers c w :
  stream_writable w = false → loggingEnabled (self w) = true →
  self (fst (log c w))
  = set_buffer (buffer (self w) +:+ call_record (self w) c) (self w)
  ∧ sockets (fst (log c w)) = sockets w.
Proof.
  intros Hw Hen. unfold log. rewrite Hen. cbn.
  match goal with
  | |- context [call_callback ?cb ?w'] =>
      destruct (call_callback_rest cb w') as (-> & -> & _)
  end.
  unfold sendMessage. by rewrite Hw, Hen.
Qed.

Lemma stream_writable_same w w' :
  stream (self w') = stream (self w) → sockets w' = sockets w →
  stream_writable w' = stream_writable w ∧ wire w' = wire w.
Proof. intros Hs Hk. unfold stream_writable, wire. by rewrite Hs, Hk. Qed.

Lemma set_buffer_same t : set_buffer (buffer t) t = t.
Proof. by destruct t. Qed.

Lemma logs_buffer cs : ∀ w,
  stream_writable w = false → loggingEnabled (self w) = true →
  self (logs cs w)
  = set_buffer (buffer (self w) +:+ call_records (self w) cs) (self w)
  ∧ sockets (logs cs w) = sockets w.
Proof.
  induction cs as [| c cs IH]; intros w Hw Hen.
  - change (logs [] w) with w.
    change (call_records (self w) []) with EmptyString.
    by rewrite string_app_nil_r, set_buffer_same.
  - change (logs (c :: cs) w) with (logs cs (fst (log c w))).
    destruct (log_buffers c w Hw Hen) as [Hself Hsock].
    destruct (IH (fst (log c w))) as [-> ->].
    + destruct (stream_writable_same w (fst (log c w))) as [-> _];
        [by rewrite Hself | done | done].
    + by rewrite Hself.
    + split; [| done]. rewrite Hself. cbn.
      rewrite string_app_assoc. do 2 f_equal.
Qed.

Lemma reconnect_keeps r w :
  buffer (self (reconnect r w)) = buffer (self w)
  ∧ same_header (self w) (self (reconnect r w)).
Proof.
  destruct r; cbn; [| by repeat split | by repeat split].
  split; [apply retry_buffer |].
  unfold_retry. repeat case_match; by repeat split.
Qed.

Lemma connectStream_open w : stream_open (connectStream w).
Proof.
  exists (length (sockets w)). cbn. split; [done |].
  rewrite length_app. cbn. lia.
Qed.

Lemma reconnect_open r w : stream_open w → stream_open (reconnect r w).
Proof.
  intros Hopen. destruct r; cbn.
  - unfold retry.
    match goal with
    | |- context [connectStream ?w'] =>
        generalize (connectStream_open w'); generalize (connectStream w')
    end.
    intros w' Hw'. by case_match.
  - apply connectStream_open.
  - done.
Qed.

Lemma reconnects_keep rs : ∀ w,
  stream_open w →
  buffer (self (reconnects rs w)) = buffer (self w)
  ∧ same_header (self w) (self (reconnects rs w))
  ∧ stream_open (reconnects rs w).
Proof.
  induction rs as [| r rs IH]; intros w Hopen.
  - split; [done |]. split; [apply same_header_refl | done].
  - change (reconnects (r :: rs) w) with (reconnects rs (reconnect r w)).
    destruct (reconnect_keeps r w) as [Hb Hh].
    destruct (IH (reconnect r w)) as (-> & Hh' & Ho);
      [by apply reconnect_open |].
    split; [done |]. split; [| done]. by eapply same_header_trans.
Qed.

(** When the handshake of the socket in [self.stream] completes, the
    buffer goes to that socket in one chunk and is emptied. *)
Lemma handshake_flushes w :
  stream_open w →
  let w' := handshake_completes w in
  wire w' = wire w ++ flushed (buffer (self w))
  ∧ stream_writable w' = true
  ∧ loggingEnabled (self w') = true
  ∧ buffer (self w') = EmptyString
  ∧ same_header (self w) (self w').
Proof.
  intros (h & Hs & Hlt). cbv zeta.
  destruct (lookup_lt_is_Some_2 (sockets w) h Hlt) as [s Hsock].
  unfold handshake_completes. rewrite Hs.
  unfold secureConnect, onConnected, flushed, wire, stream_writable,
    stream_write, on_self, emit, set_sockets. cbn. rewrite Hs.
  destruct (is_truthy (buffer (self w))) eqn:Hb; cbn; rewrite Hs; cbn.
  - rewrite !list_lookup_alter_eq, Hsock. by cbn.
  - rewrite !list_lookup_alter_eq, Hsock. cbn. rewrite app_nil_r.
    repeat split. apply negb_false_iff in Hb. by apply String.eqb_eq in Hb.
Qed.

(** While the socket is writable and buffering is enabled, [log] hands
    the record to the socket and leaves [self] as it is. *)
Lemma log_writes c w :
  stream_writable w = true → loggingEnabled (self w) = true →
  self (fst (log c w)) = self w
  ∧ wire (fst (log c w)) = wire w ++ [call_record (self w) c]
  ∧ stream_writable (fst (log c w)) = true.
Proof.
  intros Hw Hen. unfold log. rewrite Hen. cbn.
  match goal with
  | |- context [call_callback ?cb ?w'] =>
      unfold wire, stream_writable;
      destruct (call_callback_rest cb w') as (-> & -> & _)
  end.
  unfold sendMessage. rewrite Hw.
  unfold stream_writable in Hw. unfold stream_write.
  destruct (stream (self w)) as [h |] eqn:Hs; [| done]. cbn. rewrite Hs.
  rewrite list_lookup_alter_eq.
  destruct (sockets w !! h) as [s |]; [| done]. cbn in *.
  by rewrite Hw.
Qed.

Lemma logs_write cs : ∀ w,
  stream_writable w = true → loggingEnabled (self w) = true →
  self (logs cs w) = self w
  ∧ wire (logs cs w) = wire w ++ (call_record (self w) <$> cs).
Proof.
  induction cs as [| c cs IH]; intros w Hw Hen.
  - change (logs [] w) with w. by rewrite app_nil_r.
  - change (logs (c :: cs) w) with (logs cs (fst (log c w))).
    destruct (log_writes c w Hw Hen) as (Hself & Hwire & Hw').
    destruct (IH (fst (log c w))) as [-> ->]; [done | by rewrite Hself |].
    rewrite Hself, Hwire. split; [done |].
    by rewrite <- app_assoc.
Qed.

(** The case in which the calls come first and the steps towards a new
    connection after them: calls of [log] made while the socket is not
    writable and buffering is enabled, then any steps towards a new
    connection, then
    the end of the handshake of the socket in [self.stream], then further
    calls of [log]: that socket receives the buffer, which is what the
    buffer held before followed by the records of the earlier calls in
    call order, as one chunk, and after it one chunk per later call, in
    call order and with nothing in between; the buffer is empty
    afterwards. *)
Theorem buffered_records_precede_later_ones
    (w : World) (pre post : list LogCall) (rs : list Reconnect) :
  stream_open w →
  stream_writable w = false →
  loggingEnabled (self w) = true →
  let w1 := logs pre w in
  let w2 := reconnects rs w1 in
  let w3 := handshake_completes w2 in
  let w4 := logs post w3 in
  let batch := buffer (self w) +:+ call_records (self w) pre in
  wire w4 = wire w2 ++ flushed batch ++ (call_record (self w) <$> post)
  ∧ (pre ≠ [] → flushed batch = [batch])
  ∧ buffer (self w4) = EmptyString
  ∧ bytes (wire w4)
    = bytes (wire w2) +:+ buffer (self w) +:+ call_records (self w) pre
      +:+ call_records (self w) post.
Proof.
  intros Hopen Hw Hen. cbv zeta.
  destruct (logs_buffer pre w Hw Hen) as [Hself1 Hsock1].
  assert (Hopen1 : stream_open (logs pre w)).
  { destruct Hopen as (h & Hs & Hlt). exists h.
    by rewrite Hself1, Hsock1. }
  destruct (reconnects_keep rs (logs pre w) Hopen1) as (Hb2 & Hh2 & Hopen2).
  destruct (handshake_flushes (reconnects rs (logs pre w)) Hopen2)
    as (Hwire3 & Hw3 & Hen3 & Hb3 & Hh3).
  destruct (logs_write post _ Hw3 Hen3) as [Hself4 Hwire4].
  assert (Hh : same_header (self w)
                 (self (handshake_completes (reconnects rs (logs pre w))))).
  { eapply same_header_trans; [| exact Hh3].
    eapply same_header_trans; [| exact Hh2].
    rewrite Hself1. by repeat split. }
  assert (Hrec : call_record
                   (self (handshake_completes (reconnects rs (logs pre w))))
                   <$> post = call_record (self w) <$> post).
  { apply list_fmap_ext. intros _ c _. by apply call_record_header. }
  assert (Hwire : wire (logs post
                          (handshake_completes (reconnects rs (logs pre w))))
                  = wire (reconnects rs (logs pre w))
                    ++ flushed (buffer (self w) +:+ call_records (self w) pre)
                    ++ (call_record (self w) <$> post)).
  { rewrite Hwire4, Hwire3, Hrec, Hb2, Hself1. cbn. by rewrite <- app_assoc. }
  split; [exact Hwire |]. split; [| split].
  - intros Hpre. unfold flushed.
    by rewrite string_app_nonempty by by apply call_records_nonempty.
  - by rewrite Hself4.
  - rewrite Hwire, !bytes_app, bytes_flushed.
    by rewrite !string_app_assoc.
Qed.

(** *** The constructor *)

(** C9. Construction throws the configuration error whenever the token
    is missing, one of the falsy values or the empty string, also when no
    options are given at all; with any non-empty token the check passes
    and the constructor returns the transport. *)
Theorem Loggly_requires_token (options : Options) :
  Loggly None = Thrown "Missing required parameters: token"
  ∧ (supplied_truthy (o_token options) = false →
     Loggly (Some options) = Thrown "Missing required parameters: token")
  ∧ (∀ f, o_token options = Falsy f →
          Loggly (Some options) = Thrown "Missing required parameters: token")
  ∧ (o_token options = Val EmptyString →
     Loggly (Some options) = Thrown "Missing required parameters: token")
  ∧ (∀ s, o_token options = Val s → s ≠ EmptyString →
          Loggly (Some options)
          = Constructed (open_connection (initial_self options))).
Proof.
  assert (Hfalse : supplied_truthy (o_token options) = false →
                   Loggly (Some options)
                   = Thrown "Missing required parameters: token").
  { intros Ht. unfold Loggly. cbn. by rewrite Ht. }
  split; [done |]. split; [done |]. split; [| split].
  - intros f Hf. apply Hfalse. by rewrite Hf.
  - intros He. apply Hfalse. by rewrite He.
  - intros s Hs Hne. unfold Loggly. cbn. rewrite Hs. cbn.
    unfold is_truthy, string_truthiness.
    by destruct (String.eqb_spec s EmptyString).
Qed.

(** C10. In a constructed transport every optional setting whose
    supplied value is falsy (missing, or any falsy value) has its
    built-in default. *)
Theorem Loggly_defaults_for_falsy_options (options : Options) (w : World) :
  Loggly (Some options) = Constructed w →
  let t := self w in
  (supplied_truthy (o_host options) = false → host t = "logs-01.loggly.com")
  ∧ (supplied_truthy (o_port options) = false → port t = 6514)
  ∧ (supplied_truthy (o_level options) = false → level t = "info")
  ∧ (supplied_truthy (o_hostname options) = false → hostname t = os_hostname)
  ∧ (supplied_truthy (o_pid options) = false → pid t = JNum process_pid)
  ∧ (supplied_truthy (o_program options) = false → program t = "default")
  ∧ (supplied_truthy (o_logFormat options) = false →
     logFormat t = defaultLogFormat)
  ∧ (supplied_truthy (o_tags options) = false → tags t = [])
  ∧ (supplied_truthy (o_attemptsBeforeDecay options) = false →
     attemptsBeforeDecay t = 5)
  ∧ (supplied_truthy (o_maximumAttempts options) = false →
     maximumAttempts t = 25)
  ∧ (supplied_truthy (o_connectionDelay options) = false →
     connectionDelay t = 1000)
  ∧ (supplied_truthy (o_maxDelayBetweenReconnection options) = false →
     maxDelayBetweenReconnection t = 60000)
  ∧ (supplied_truthy (o_inlineMeta options) = false → inlineMeta t = false)
  ∧ (supplied_truthy (o_handleExceptions options) = false →
     handleExceptions t = false).
Proof.
  unfold Loggly. cbn. case_match; [done |]. intros [= <-]. cbn.
  assert (Hdef : ∀ A (T : Truthiness A) (o : supplied A) (d : A),
            supplied_truthy o = false → or_default o d = d).
  { intros A T [f | a] d; cbn; [done |]. by intros ->. }
  repeat split; try apply Hdef.
  destruct (o_pid options) as [f | s]; cbn; [done |].
  unfold is_truthy, jsval_truthiness, string_truthiness. cbn. by intros ->.
Qed.

(** *** Severity *)

Lemma encode_priority t now lvl message meta :
  encode t now lvl message meta
  = "<" +:+ ToString (priVal lvl) +:+ ">1 " +:+ now +:+ " " +:+ hostname t
    +:+ " " +:+ program t +:+ " " +:+ ToString (pid t) +:+ " " +:+ dquote
    +:+ "-" +:+ dquote +:+ " " +:+ structuredData t +:+ " "
    +:+ logFormat t message meta +:+ CRLF.
Proof. reflexivity. Qed.

(** The seven names above [emerg] get 8 plus their number. *)
Lemma priVal_known :
  priVal "alert" = JNum 9 ∧ priVal "crit" = JNum 10
  ∧ priVal "error" = JNum 11 ∧ priVal "warning" = JNum 12
  ∧ priVal "notice" = JNum 13 ∧ priVal "info" = JNum 14
  ∧ priVal "debug" = JNum 15.
Proof. vm_compute. auto 8. Qed.

(** A name that neither [levelMap] nor [Object.prototype] has gets
    8 + 6. *)
Lemma priVal_unknown (lvl : string) :
  lvl ∉ dom levelMap → lvl ∉ dom Object_prototype → priVal lvl = JNum 14.
Proof.
  intros Hl Ho. apply not_elem_of_dom in Hl, Ho.
  unfold priVal, getPriority, get. by rewrite Hl, Ho.
Qed.

(** A name that [Object.prototype] has, such as [constructor], is found
    through the prototype: the priority is then a string. *)
Lemma priVal_inherited :
  priVal "constructor" = JStr "8function Object() { [native code] }"
  ∧ priVal "toString" = JStr "8function toString() { [native code] }".
Proof. vm_compute. auto. Qed.

(** C1. For the level [emerg] the table holds 0, which [||] takes for
    missing: [getPriority] gives 6, and the record starts with [<14>]
    where 8 + 0 is due. *)
Theorem emerg_priority_is_14 (t : Transport) (now : string) (message meta : jsval) :
  levelMap !! "emerg" = Some (JNum 0)
  ∧ getPriority "emerg" = JNum 6
  ∧ priVal "emerg" = JNum 14
  ∧ encode t now "emerg" message meta
    = "<14>1 " +:+ now +:+ " " +:+ hostname t +:+ " " +:+ program t +:+ " "
      +:+ ToString (pid t) +:+ " " +:+ dquote +:+ "-" +:+ dquote +:+ " "
      +:+ structuredData t +:+ " " +:+ logFormat t message meta +:+ CRLF.
Proof.
  assert (Hp : priVal "emerg" = JNum 14) by by vm_compute.
  split; [by vm_compute |]. split; [by vm_compute |]. split; [done |].
  by rewrite encode_priority, Hp.
Qed.


(** ** Further properties of the code *)

(** *** Severity of every level name *)

Lemma levelMap_lookup (lvl : string) (v : jsval) :
  levelMap !! lvl = Some v →
  ∃ n, v = JNum n ∧ 0 ≤ n ≤ 7.
Proof.
  intros Hl. apply elem_of_list_to_map_2 in Hl.
  repeat (apply elem_of_cons in Hl as [[= -> ->] | Hl]; [eexists; split; [done | lia] |]).
  by apply elem_of_nil in Hl.
Qed.

Lemma Object_prototype_lookup (lvl : string) (v : jsval) :
  Object_prototype !! lvl = Some v →
  (∃ f, v = JFun f) ∨ (∃ ps, v = JObj ps).
Proof.
  intros Hl. apply elem_of_list_to_map_2 in Hl.
  repeat (apply elem_of_cons in Hl as [[= -> ->] | Hl]; [eauto |]).
  by apply elem_of_nil in Hl.
Qed.

(** X1. A level name that [Object.prototype] does not have is encoded
    with a number from 9 to 15; no level name at all is encoded with 8. *)
Theorem priority_from_9_to_15 (lvl : string) :
  (lvl ∉ dom Object_prototype → ∃ n, priVal lvl = JNum n ∧ 9 ≤ n ≤ 15)
  ∧ priVal lvl ≠ JNum 8.
Proof.
  unfold priVal, getPriority, get.
  destruct (levelMap !! lvl) as [v |] eqn:Hl.
  - destruct (levelMap_lookup lvl v Hl) as (n & -> & Hn).
    unfold logical_or. cbn. destruct (Z.eqb_spec n 0) as [-> | Hne]; cbn.
    + split; [intros _; exists 14; split; [done | lia] | done].
    + split; [intros _; exists (8 + n); split; [done | lia] |].
      intros [= H8]. lia.
  - destruct (Object_prototype !! lvl) as [v |] eqn:Ho.
    + split; [intros Hd; by apply not_elem_of_dom in Hd; rewrite Hd in Ho |].
      by destruct (Object_prototype_lookup lvl v Ho) as [[f ->] | [ps ->]].
    + cbn. split; [intros _; exists 14; split; [done | lia] | done].
Qed.

(** *** Runs of the retry closure *)

Lemma retries_limits n w :
  maxDelayBetweenReconnection (self (Nat.iter n retry w))
    = maxDelayBetweenReconnection (self w)
  ∧ attemptsBeforeDecay (self (Nat.iter n retry w)) = attemptsBeforeDecay (self w)
  ∧ maximumAttempts (self (Nat.iter n retry w)) = maximumAttempts (self w).
Proof.
  induction n as [| n (IH1 & IH2 & IH3)]; [done |].
  rewrite Nat.iter_succ.
  destruct (retry_limits (Nat.iter n retry w)) as (-> & -> & ->). done.
Qed.

Lemma retries_below_threshold (a : nat) w :
  attemptsBeforeDecay (self w) = Z.of_nat a →
  currentRetries (self w) = 0 →
  ∀ m, (m < a)%nat →
       connectionDelay (self (Nat.iter m retry w)) = connectionDelay (self w)
       ∧ currentRetries (self (Nat.iter m retry w)) = Z.of_nat m.
Proof.
  intros Ha Hc m. induction m as [| m IH]; intros Hm; [done |].
  destruct IH as [IHd IHc]; [lia |].
  rewrite Nat.iter_succ.
  destruct (retries_limits m w) as (_ & Habd & _).
  destruct (retry_keeps_delay (Nat.iter m retry w)) as [-> ->]; [lia |].
  split; [done | lia].
Qed.

(** X7. From a retry counter of 0 and a delay below the maximum,
    [attemptsBeforeDecay] failed attempts in a row double the delay once:
    fewer attempts leave the delay as it was and count up, and the last of
    them doubles it and sets the counter back to 0. *)
Theorem consecutive_failures_double_delay (w : World) (a : nat) :
  attemptsBeforeDecay (self w) = Z.of_nat a →
  (1 ≤ a)%nat →
  currentRetries (self w) = 0 →
  connectionDelay (self w) < maxDelayBetweenReconnection (self w) →
  (∀ m, (m < a)%nat →
        connectionDelay (self (Nat.iter m retry w)) = connectionDelay (self w)
        ∧ currentRetries (self (Nat.iter m retry w)) = Z.of_nat m)
  ∧ connectionDelay (self (Nat.iter a retry w)) = connectionDelay (self w) * 2
  ∧ currentRetries (self (Nat.iter a retry w)) = 0.
Proof.
  intros Ha H1 Hc Hlt. split; [by apply retries_below_threshold |].
  destruct a as [| a]; [lia |].
  destruct (retries_below_threshold (S a) w Ha Hc a) as [Hd Hcur]; [lia |].
  destruct (retries_limits a w) as (Hmax & Habd & _).
  rewrite Nat.iter_succ.
  destruct (retry_decays (Nat.iter a retry w)) as [-> ->]; [lia | lia |].
  by rewrite Hd.
Qed.

Lemma retry_sockets w :
  sockets (retry w)
  = sockets w ++
    [{| remote_port := port (self w); remote_host := host (self w);
        rejectUnauthorized := false;
        writable := connecting_writable; written := [] |}].
Proof. unfold_retry. by repeat case_match. Qed.

(** X8. After [n] runs of the retry closure the total counter has grown
    by [n] and [n] more sockets exist; buffering that was enabled before
    is still enabled exactly when [n] is 0 or the total counter is still
    below [maximumAttempts]. *)
Theorem retries_counted (n : nat) (w : World) :
  totalRetries (self (Nat.iter n retry w)) = totalRetries (self w) + Z.of_nat n
  ∧ length (sockets (Nat.iter n retry w)) = (length (sockets w) + n)%nat
  ∧ (loggingEnabled (self w) = true →
     (loggingEnabled (self (Nat.iter n retry w)) = true
      ↔ n = 0%nat
        ∨ totalRetries (self w) + Z.of_nat n < maximumAttempts (self w))).
Proof.
  induction n as [| n (IHt & IHs & IHe)].
  - split; [cbn; lia |]. split; [cbn; lia |]. intros Hen. cbn. by split; [left |].
  - rewrite Nat.iter_succ, retry_totalRetries, retry_sockets, length_app.
    rewrite retry_loggingEnabled.
    destruct (retries_limits n w) as (_ & _ & Hmax). rewrite IHt, Hmax.
    split; [lia |]. split; [cbn; lia |]. intros Hen. specialize (IHe Hen).
    rewrite andb_true_iff, negb_true_iff.
    destruct (Z.geb_spec (totalRetries (self w) + Z.of_nat n + 1)
                (maximumAttempts (self w))) as [Hge | Hlt].
    + split; [intros [_ [=]] | intros [[=] | Hlt]; lia].
    + split; [intros _; right; lia |]. intros _. split; [| done].
      apply IHe. destruct n; [by left | right; lia].
Qed.

(** *** Where a record goes *)

(** X15. A call of [log] puts its record in exactly one place: on the
    socket in [self.stream] when that is writable and buffering is
    enabled, at the end of the buffer when it is not writable and
    buffering is enabled, and nowhere once buffering is disabled, be the
    socket writable or not. *)
Theorem log_routes_record_once (c : LogCall) (w : World) :
  (loggingEnabled (self w) = true → stream_writable w = true →
   wire (fst (log c w)) = wire w ++ [call_record (self w) c]
   ∧ self (fst (log c w)) = self w)
  ∧ (loggingEnabled (self w) = true → stream_writable w = false →
     buffer (self (fst (log c w))) = buffer (self w) +:+ call_record (self w) c
     ∧ sockets (fst (log c w)) = sockets w)
  ∧ (loggingEnabled (self w) = false →
     self (fst (log c w)) = self w ∧ sockets (fst (log c w)) = sockets w).
Proof.
  split; [| split].
  - intros Hen Hw. by destruct (log_writes c w Hw Hen) as (-> & -> & _).
  - intros Hen Hw. by destruct (log_buffers c w Hw Hen) as (-> & ->).
  - apply log_disabled.
Qed.

(** X9. Buffering that was disabled is enabled again by the next
    established connection: the handshake of the socket in [self.stream]
    hands the retained buffer to that socket, losing and repeating
    nothing, empties it, and a call of [log] after it is written to the
    socket. *)
Theorem connection_restores_buffering (c : LogCall) (w : World) :
  stream_open w →
  loggingEnabled (self w) = false →
  let w' := handshake_completes w in
  loggingEnabled (self w') = true
  ∧ buffer (self w') = EmptyString
  ∧ bytes (wire w') = bytes (wire w) +:+ buffer (self w)
  ∧ wire (fst (log c w'))
    = wire w ++ flushed (buffer (self w)) ++ [call_record (self w) c].
Proof.
  intros Hopen _. cbv zeta.
  destruct (handshake_flushes w Hopen) as (Hwire & Hw & Hen & Hb & Hh).
  destruct (log_writes c _ Hw Hen) as (_ & -> & _).
  split; [done |]. split; [done |]. split.
  - by rewrite Hwire, bytes_app, bytes_flushed.
  - by rewrite Hwire, (call_record_header (self w)), <- app_assoc.
Qed.

(** *** Callbacks *)

(** X12. A call of [log] whose callback is not a function, with
    metadata that is not a function either, ends in a TypeError and
    acknowledges nothing; by then, with buffering enabled, the message has
    been handed to [sendMessage] all the same. *)
Theorem log_without_callable_callback (c : LogCall) (w : World) :
  (∀ k, c_callback c ≠ JFun k) →
  (∀ k, c_meta c ≠ JFun k) →
  snd (log c w) = Throw "TypeError: callback is not a function"
  ∧ acks (fst (log c w)) = acks w
  ∧ (loggingEnabled (self w) = true →
     fst (log c w)
     = sendMessage (c_now c) (c_level c) (c_msg c) (c_meta c) w)
  ∧ (loggingEnabled (self w) = false → fst (log c w) = w).
Proof.
  intros Hcb Hmeta.
  assert (Hswap : swap_meta (c_meta c) (c_callback c) = false).
  { unfold swap_meta.
    destruct (c_meta c) as [| | | b | z | s | ps | f]; try done.
    by destruct (Hmeta f). }
  unfold log. rewrite Hswap.
  destruct (loggingEnabled (self w)); cbn.
  - destruct (c_callback c) as [| | | b | z | s | ps | f] eqn:Hc; cbn;
      try (by destruct (sendMessage_rest (c_now c) (c_level c) (c_msg c)
                          (c_meta c) w) as (-> & _)).
    by destruct (Hcb f).
  - destruct (c_callback c) as [| | | b | z | s | ps | f] eqn:Hc; cbn;
      try done.
    by destruct (Hcb f).
Qed.

(** X14. [log(level, msg, callback)]: a function in the place of the
    metadata, with nothing after it, is called as the callback, and the
    message is sent with empty metadata. *)
Theorem log_callback_in_place_of_meta (c : LogCall) (w : World) (k : string) :
  c_meta c = JFun k →
  truthy (c_callback c) = false →
  loggingEnabled (self w) = true →
  log c w
  = (record_call k [JNull; JBool true]
       (sendMessage (c_now c) (c_level c) (c_msg c) (JObj []) w), Normal).
Proof.
  intros Hmeta Hcb Hen. unfold log, swap_meta. by rewrite Hmeta, Hcb, Hen.
Qed.

(** *** The default formatter *)

Lemma assign_lookup_eq k v props : prop_lookup k (assign k v props) = Some v.
Proof.
  induction props as [| [k' v'] props IH]; cbn.
  - by rewrite String.eqb_refl.
  - destruct (String.eqb_spec k' k) as [-> | Hne]; cbn.
    + by rewrite String.eqb_refl.
    + by destruct (String.eqb_spec k' k).
Qed.

Lemma assign_lookup_ne k k0 v props :
  k0 ≠ k → prop_lookup k0 (assign k v props) = prop_lookup k0 props.
Proof.
  intros Hne. induction props as [| [k' v'] props IH]; cbn.
  - by destruct (String.eqb_spec k k0).
  - destruct (String.eqb_spec k' k) as [-> | Hne']; cbn.
    + by destruct (String.eqb_spec k k0).
    + by rewrite IH.
Qed.

Lemma assign_keys k v props :
  (assign k v props).*1
  = if bool_decide (k ∈ props.*1) then props.*1 else props.*1 ++ [k].
Proof.
  induction props as [| [k' v'] props IH]; cbn; [done |].
  destruct (String.eqb_spec k' k) as [-> | Hne]; cbn.
  - by rewrite bool_decide_eq_true_2 by (apply elem_of_cons; by left).
  - rewrite IH. destruct (decide (k ∈ props.*1)) as [Hin | Hnin].
    + rewrite !bool_decide_eq_true_2; [done | apply elem_of_cons; by right | done].
    + rewrite !bool_decide_eq_false_2; [done | | done].
      intros [? | ?]%elem_of_cons; congruence.
Qed.

(** X10. For a truthy message and metadata that is an object, the
    default formatter stringifies the metadata with [log_msg] set to the
    message: every other property keeps its value, the properties keep
    their order, and [log_msg] goes last unless the metadata had it
    already, in which case its value is replaced. *)
Theorem defaultLogFormat_sets_log_msg (message : jsval) (props : list (string * jsval)) :
  truthy message = true →
  ∃ props',
    defaultLogFormat message (JObj props) = JSON_stringify (JObj props')
    ∧ prop_lookup "log_msg" props' = Some message
    ∧ (∀ k, k ≠ "log_msg" → prop_lookup k props' = prop_lookup k props)
    ∧ props'.*1
      = if bool_decide ("log_msg" ∈ props.*1) then props.*1
        else props.*1 ++ ["log_msg"].
Proof.
  intros Hm. exists (assign "log_msg" message props).
  unfold defaultLogFormat. cbn. rewrite Hm. cbn.
  split; [done |]. split; [apply assign_lookup_eq |].
  split; [intros k Hk; by apply assign_lookup_ne | apply assign_keys].
Qed.

(** X11. The default formatter at its edges: a falsy message (empty
    string, 0, [false], [null], [undefined]) adds no [log_msg], so that
    only the metadata is stringified; falsy metadata counts as the empty
    object; and metadata that is truthy without being an object (a string,
    a number, [true], a function) is stringified as it is, the message
    being lost. *)
Theorem defaultLogFormat_edge_cases (message meta : jsval) :
  (truthy message = false → truthy meta = true →
   defaultLogFormat message meta = JSON_stringify meta)
  ∧ (truthy message = false → truthy meta = false →
     defaultLogFormat message meta = JSON_stringify (JObj []))
  ∧ (truthy message = true → truthy meta = false →
     defaultLogFormat message meta
     = JSON_stringify (JObj [("log_msg", message)]))
  ∧ (truthy meta = true → (∀ props, meta ≠ JObj props) →
     defaultLogFormat message meta = JSON_stringify meta).
Proof.
  unfold defaultLogFormat. repeat split.
  - by intros -> ->.
  - by intros -> ->.
  - by intros -> ->.
  - intros -> Hobj. destruct (truthy message); [| done].
    destruct meta; try done. by destruct (Hobj props).
Qed.

(** *** Runs of the transport *)

Lemma same_settings_refl t : same_settings t t.
Proof. by repeat split. Qed.

Lemma same_settings_trans t1 t2 t3 :
  same_settings t1 t2 → same_settings t2 t3 → same_settings t1 t3.
Proof.
  unfold same_settings. intros H12 H23.
  repeat match goal with H : _ ∧ _ |- _ => destruct H end.
  repeat split; congruence.
Qed.

Lemma socket_kept_refl current h s : socket_kept current h s s.
Proof. by repeat split. Qed.

Lemma sockets_kept_refl current l : sockets_kept current l l.
Proof. split; [done |]. intros h s Hs. exists s. split; [done | apply socket_kept_refl]. Qed.

Lemma sockets_kept_trans current l1 l2 l3 :
  sockets_kept current l1 l2 → sockets_kept current l2 l3 →
  sockets_kept current l1 l3.
Proof.
  intros [Hl12 H12] [Hl23 H23]. split; [congruence |].
  intros h s Hs. destruct (H12 h s Hs) as (s2 & Hs2 & Hp2 & Hh2 & Hr2 & Hw2).
  destruct (H23 h s2 Hs2) as (s3 & Hs3 & Hp3 & Hh3 & Hr3 & Hw3).
  exists s3. split; [done |].
  repeat split; try congruence. intros Hc. by rewrite Hw3, Hw2.
Qed.

Lemma sockets_kept_writable current b h l :
  sockets_kept current l (alter (set_writable b) h l).
Proof.
  split; [apply length_alter |]. intros j s Hs.
  rewrite list_lookup_alter. destruct (decide (h = j)) as [-> | Hne].
  - rewrite Hs. eexists. split; [done |]. by repeat split.
  - exists s. split; [done | apply socket_kept_refl].
Qed.

Lemma sockets_kept_write chunk h l :
  sockets_kept (Some h) l (alter (socket_write chunk) h l).
Proof.
  split; [apply length_alter |]. intros j s Hs.
  rewrite list_lookup_alter. destruct (decide (h = j)) as [-> | Hne].
  - rewrite Hs. eexists. split; [done |]. by repeat split.
  - exists s. split; [done | apply socket_kept_refl].
Qed.

(** What [log] does to [self] and to the sockets. *)
Lemma log_self c w : ∃ b, self (fst (log c w)) = set_buffer b (self w).
Proof.
  destruct (loggingEnabled (self w)) eqn:Hen.
  - destruct (stream_writable w) eqn:Hw.
    + destruct (log_writes c w Hw Hen) as (-> & _).
      exists (buffer (self w)). by rewrite set_buffer_same.
    + destruct (log_buffers c w Hw Hen) as (-> & _). eauto.
  - destruct (log_disabled c w Hen) as (-> & _).
    exists (buffer (self w)). by rewrite set_buffer_same.
Qed.

Lemma sendMessage_sockets now lvl message meta w :
  sockets_kept (stream (self w)) (sockets w)
    (sockets (sendMessage now lvl message meta w)).
Proof.
  unfold sendMessage, stream_write.
  repeat case_match; try apply sockets_kept_refl.
  cbn. apply sockets_kept_write.
Qed.

Lemma log_sockets c w :
  sockets_kept (stream (self w)) (sockets w) (sockets (fst (log c w))).
Proof.
  unfold log. case_match.
  - match goal with
    | |- context [call_callback ?cb ?w'] =>
        destruct (call_callback_rest cb w') as (_ & -> & _)
    end.
    apply sockets_kept_refl.
  - match goal with
    | |- context [call_callback ?cb ?w'] =>
        destruct (call_callback_rest cb w') as (_ & -> & _)
    end.
    apply sendMessage_sockets.
Qed.

Lemma log_acks c w : acks (fst (log c w)) = acks w ++ step_acks (InLog c).
Proof.
  unfold log, step_acks, call_callback_of. case_match.
  - unfold call_callback. case_match; by rewrite ?app_nil_r.
  - unfold call_callback.
    case_match; cbn;
      destruct (sendMessage_rest (c_now c) (c_level c) (c_msg c)
                  (if swap_meta (c_meta c) (c_callback c)
                   then JObj [] else c_meta c) w) as (-> & _);
      by rewrite ?app_nil_r.
Qed.

(** What [onConnected] does to [self] and to the sockets. *)
Lemma onConnected_self_eq w :
  self (onConnected w)
  = set_buffer EmptyString
      (set_connectionDelay 1000
         (set_totalRetries 0
            (set_currentRetries 0 (set_loggingEnabled true (self w))))).
Proof.
  unfold onConnected, stream_write, on_self, emit. cbn.
  destruct (is_truthy (buffer (self w))) eqn:Hb; cbn.
  - by destruct (stream (self w)).
  - apply negb_false_iff in Hb. apply String.eqb_eq in Hb.
    rewrite <- Hb. by destruct (self w).
Qed.

Lemma onConnected_sockets w :
  sockets_kept (stream (self w)) (sockets w) (sockets (onConnected w))
  ∧ acks (onConnected w) = acks w.
Proof.
  unfold onConnected, stream_write, on_self, emit. cbn.
  destruct (is_truthy (buffer (self w))); cbn;
    [| split; [apply sockets_kept_refl | done]].
  destruct (stream (self w)) as [h |]; cbn;
    [| split; [apply sockets_kept_refl | done]].
  split; [apply sockets_kept_write | done].
Qed.

(** What the retry closure does to [self]. *)
Lemma retry_settings w : same_settings (self w) (self (retry w)).
Proof. unfold_retry. repeat case_match; by repeat split. Qed.

Lemma retry_stream w :
  stream (self (retry w)) = Some (length (sockets w)) ∧ acks (retry w) = acks w.
Proof. unfold_retry. by repeat case_match. Qed.

Lemma retry_counters w :
  totalRetries (self (retry w)) = totalRetries (self w) + 1
  ∧ (currentRetries (self (retry w)) = currentRetries (self w) + 1
     ∨ currentRetries (self (retry w)) = 0)
  ∧ (connectionDelay (self (retry w)) = connectionDelay (self w)
     ∨ connectionDelay (self w) < maxDelayBetweenReconnection (self w)
       ∧ connectionDelay (self (retry w)) = connectionDelay (self w) * 2).
Proof.
  split; [apply retry_totalRetries |].
  destruct (decide (connectionDelay (self w) < maxDelayBetweenReconnection (self w)
                    ∧ attemptsBeforeDecay (self w) ≤ currentRetries (self w) + 1))
    as [[Hlt Hge] | Hn].
  - destruct (retry_decays w Hlt Hge) as [-> ->]. auto.
  - destruct (retry_keeps_delay w Hn) as [-> ->]. auto.
Qed.

(** What one step does. *)
Lemma step_self i w :
  same_settings (self w) (self (step i w))
  ∧ (0 ≤ currentRetries (self w) ≤ totalRetries (self w) →
     0 ≤ currentRetries (self (step i w)) ≤ totalRetries (self (step i w)))
  ∧ (connectionDelay (self (step i w)) = connectionDelay (self w)
     ∨ connectionDelay (self (step i w)) = 1000
     ∨ connectionDelay (self w) < maxDelayBetweenReconnection (self w)
       ∧ connectionDelay (self (step i w)) = connectionDelay (self w) * 2)
  ∧ acks (step i w) = acks w ++ step_acks i.
Proof.
  assert (Hsame : same_settings (self w) (self w)
                  ∧ (0 ≤ currentRetries (self w) ≤ totalRetries (self w) →
                     0 ≤ currentRetries (self w) ≤ totalRetries (self w))
                  ∧ (connectionDelay (self w) = connectionDelay (self w)
                     ∨ connectionDelay (self w) = 1000
                     ∨ connectionDelay (self w) < maxDelayBetweenReconnection (self w)
                       ∧ connectionDelay (self w) = connectionDelay (self w) * 2)
                  ∧ acks w = acks w ++ [])
    by (rewrite app_nil_r; auto using same_settings_refl).
  assert (Hretry : ∀ w0, self w0 = self w → acks w0 = acks w →
            same_settings (self w) (self (retry w0))
            ∧ (0 ≤ currentRetries (self w) ≤ totalRetries (self w) →
               0 ≤ currentRetries (self (retry w0)) ≤ totalRetries (self (retry w0)))
            ∧ (connectionDelay (self (retry w0)) = connectionDelay (self w)
               ∨ connectionDelay (self (retry w0)) = 1000
               ∨ connectionDelay (self w) < maxDelayBetweenReconnection (self w)
                 ∧ connectionDelay (self (retry w0)) = connectionDelay (self w) * 2)
            ∧ acks (retry w0) = acks w ++ []).
  { intros w0 Hs Ha. rewrite <- Hs, <- Ha, app_nil_r.
    destruct (retry_counters w0) as (Ht & Hc & Hd).
    destruct (retry_stream w0) as [_ Hacks].
    split; [apply retry_settings |]. split; [lia |]. split; [| done].
    destruct Hd as [Hd | Hd]; auto. }
  destruct i as [c | h | h err | h | i | h b]; cbn [step step_acks].
  - destruct (log_self c w) as [b' Hb]. rewrite Hb, log_acks. cbn.
    split; [by repeat split |]. auto.
  - case_match; [| exact Hsame]. unfold secureConnect.
    rewrite onConnected_self_eq.
    match goal with
    | |- context [acks (onConnected ?w')] =>
        destruct (onConnected_sockets w') as [_ ->]
    end.
    cbn. rewrite app_nil_r. split; [by repeat split |].
    split; [lia | auto].
  - case_match; exact Hsame.
  - case_match; [| exact Hsame]. cbn. rewrite app_nil_r.
    split; [by repeat split | auto].
  - unfold timer_fires. case_match; [| exact Hsame]. cbn. by apply Hretry.
  - exact Hsame.
Qed.

Lemma connectStream_evolve w : sockets_evolve w (connectStream w).
Proof. by right. Qed.

Lemma step_sockets i w : sockets_evolve w (step i w).
Proof.
  assert (Hsame : sockets_evolve w w)
    by (left; split; [done | apply sockets_kept_refl]).
  destruct i as [c | h | h err | h | i | h b]; cbn [step].
  - left. destruct (log_self c w) as [b' ->]. split; [done | apply log_sockets].
  - case_match; [| exact Hsame]. left. unfold secureConnect.
    rewrite onConnected_self_eq. split; [done |].
    eapply sockets_kept_trans; [apply (sockets_kept_writable _ true h) |].
    match goal with
    | |- context [onConnected ?w'] => apply (onConnected_sockets w')
    end.
  - case_match; [| exact Hsame]. left. split; [done |].
    apply sockets_kept_writable.
  - case_match; [| exact Hsame]. apply connectStream_evolve.
  - unfold timer_fires. case_match; [| exact Hsame]. cbn. right.
    destruct (retry_stream (set_timers (delete i (timers w)) w)) as [-> _].
    by rewrite retry_sockets.
  - left. split; [done | apply sockets_kept_writable].
Qed.

Lemma step_sockets_in_order i w :
  sockets_in_order w → sockets_in_order (step i w).
Proof.
  intros (Hs & Hlen & Hall).
  destruct (step_self i w) as ((_ & _ & Hhost & Hport & _) & _).
  unfold sockets_in_order. rewrite Hhost, Hport.
  destruct (step_sockets i w) as [[Hst [Hl Hkept]] | [Hst Hsock]].
  - rewrite Hst, Hs, Hl. split; [done |]. split; [done |].
    apply Forall_lookup. intros j s' Hj.
    destruct (lookup_lt_is_Some_2 (sockets w) j) as [s Hs0];
      [rewrite <- Hl; by eapply lookup_lt_Some |].
    destruct (Hkept j s Hs0) as (s'' & Hs'' & Hp & Hh & Hr & _).
    assert (s'' = s') as -> by congruence.
    rewrite Forall_lookup in Hall. destruct (Hall j s Hs0) as (? & ? & ?).
    repeat split; congruence.
  - rewrite Hst, Hsock, length_app. cbn. split; [f_equal; lia |].
    split; [lia |]. apply Forall_app. split; [done |].
    by apply Forall_singleton.
Qed.

Lemma open_connection_in_order t : sockets_in_order (open_connection t).
Proof.
  unfold sockets_in_order, open_connection. cbn.
  split; [done |]. split; [lia |]. by apply Forall_singleton.
Qed.

Lemma run_cons i inputs w : run (i :: inputs) w = run inputs (step i w).
Proof. done. Qed.

Lemma foldl_tag_text sd tags0 :
  foldl (λ acc tag, acc +:+ " tag=" +:+ dquote +:+ tag +:+ dquote) sd tags0
  = sd +:+ bytes (tag_text <$> tags0).
Proof.
  revert sd. induction tags0 as [| tag tags0 IH]; intros sd.
  - cbn. by rewrite string_app_nil_r.
  - cbn [foldl]. rewrite IH.
    change (bytes (tag_text <$> tag :: tags0))
      with (tag_text tag +:+ bytes (tag_text <$> tags0)).
    unfold tag_text. by rewrite !string_app_assoc.
Qed.

Lemma Loggly_constructed options w0 :
  Loggly (Some options) = Constructed w0 →
  w0 = open_connection (initial_self options).
Proof. unfold Loggly. cbn. case_match; [done |]. by intros [= <-]. Qed.

(** X2. Whatever happens to a constructed transport, the settings that
    the constructor stored stay as they are, and the structured data
    stays the text made once from the token and the tags: the token,
    [@41058] and one [tag] entry per tag in the order given, in square
    brackets. *)
Theorem settings_never_change (options : Options) (w0 : World) (inputs : list Input) :
  Loggly (Some options) = Constructed w0 →
  same_settings (self w0) (self (run inputs w0))
  ∧ structuredData (self (run inputs w0))
    = "[" +:+ supplied_text (o_token options) +:+ "@41058"
      +:+ bytes (tag_text <$> or_default (o_tags options) []) +:+ "]".
Proof.
  intros Hc. apply Loggly_constructed in Hc.
  assert (Hrun : ∀ w, same_settings (self w) (self (run inputs w))).
  { induction inputs as [| i inputs IH]; intros w; [apply same_settings_refl |].
    rewrite run_cons. eapply same_settings_trans; [| apply IH].
    apply step_self. }
  split; [apply Hrun |].
  destruct (Hrun w0) as (_ & _ & _ & _ & _ & _ & _ & _ & _ & _ & _ & _ & _ & _ & _ & ->).
  rewrite Hc. cbn. unfold make_structuredData. cbn.
  by rewrite foldl_tag_text, !string_app_assoc.
Qed.

(** X3. Whatever happens to a constructed transport, [self.stream] is
    the socket opened last, and every socket was opened to the configured
    host and port with [rejectUnauthorized: false]. *)
Theorem sockets_stay_in_order (options : Options) (w0 : World) (inputs : list Input) :
  Loggly (Some options) = Constructed w0 →
  sockets_in_order (run inputs w0)
  ∧ host (self (run inputs w0)) = or_default (o_host options) "logs-01.loggly.com"
  ∧ port (self (run inputs w0)) = or_default (o_port options) 6514.
Proof.
  intros Hc. apply Loggly_constructed in Hc.
  assert (Hrun : ∀ w, sockets_in_order w →
            sockets_in_order (run inputs w)
            ∧ host (self (run inputs w)) = host (self w)
            ∧ port (self (run inputs w)) = port (self w)).
  { induction inputs as [| i inputs IH]; intros w Hw; [done |].
    rewrite run_cons.
    destruct (IH (step i w)) as (Ho & -> & ->); [by apply step_sockets_in_order |].
    by destruct (step_self i w) as ((_ & _ & -> & -> & _) & _). }
  subst w0.
  destruct (Hrun (open_connection (initial_self options))) as (Ho & -> & ->);
    [apply open_connection_in_order | done].
Qed.

(** X4. Whatever happens to a constructed transport, the retry counter
    is at least 0 and at most the total counter. *)
Theorem counters_stay_ordered (options : Options) (w0 : World) (inputs : list Input) :
  Loggly (Some options) = Constructed w0 →
  0 ≤ currentRetries (self (run inputs w0)) ≤ totalRetries (self (run inputs w0)).
Proof.
  intros Hc. apply Loggly_constructed in Hc.
  assert (Hrun : ∀ w, 0 ≤ currentRetries (self w) ≤ totalRetries (self w) →
            0 ≤ currentRetries (self (run inputs w))
              ≤ totalRetries (self (run inputs w))).
  { induction inputs as [| i inputs IH]; intros w Hw; [done |].
    rewrite run_cons. apply IH. by apply step_self. }
  apply Hrun. rewrite Hc. cbn. lia.
Qed.

(** X5. Whatever happens to a constructed transport, the delay is below
    twice [maxDelayBetweenReconnection], or it is the configured delay, or
    it is 1000. *)
Theorem delay_stays_bounded (options : Options) (w0 : World) (inputs : list Input) :
  Loggly (Some options) = Constructed w0 →
  let t := self (run inputs w0) in
  connectionDelay t < 2 * maxDelayBetweenReconnection t
  ∨ connectionDelay t = or_default (o_connectionDelay options) 1000
  ∨ connectionDelay t = 1000.
Proof.
  intros Hc. apply Loggly_constructed in Hc. cbv zeta.
  assert (Hrun : ∀ d w,
            connectionDelay (self w) < 2 * maxDelayBetweenReconnection (self w)
            ∨ connectionDelay (self w) = d ∨ connectionDelay (self w) = 1000 →
            connectionDelay (self (run inputs w))
              < 2 * maxDelayBetweenReconnection (self (run inputs w))
            ∨ connectionDelay (self (run inputs w)) = d
            ∨ connectionDelay (self (run inputs w)) = 1000).
  { intros d. induction inputs as [| i inputs IH]; intros w Hw; [done |].
    rewrite run_cons. apply IH.
    destruct (step_self i w) as (Hset & _ & Hd & _).
    destruct Hset as (_ & _ & _ & _ & _ & _ & _ & _ & _ & _ & _ & _ & _ & -> & _).
    destruct Hd as [-> | [-> | [Hlt ->]]]; [done | auto | left; lia]. }
  apply Hrun. right. left. by rewrite Hc.
Qed.

(** X6. No step writes to a socket other than the one in [self.stream]:
    a socket that is not [self.stream] before the step still exists after
    it and has been given the same chunks. *)
Theorem writes_reach_only_current_socket (i : Input) (w : World) (h : nat) (s : Socket) :
  sockets w !! h = Some s →
  stream (self w) ≠ Some h →
  ∃ s', sockets (step i w) !! h = Some s' ∧ written s' = written s.
Proof.
  intros Hs Hne.
  destruct (step_sockets i w) as [[_ [_ Hkept]] | [_ ->]].
  - destruct (Hkept h s Hs) as (s' & Hs' & _ & _ & _ & Hw). eauto.
  - exists s. split; [| done]. rewrite lookup_app_l; [done |].
    by eapply lookup_lt_Some.
Qed.

(** X13. Over any run, the callbacks called are those of the calls of
    [log] that came with a function as callback, once each with
    [(null, true)], in call order; no other step calls a callback. *)
Theorem acks_follow_calls (inputs : list Input) (w : World) :
  acks (run inputs w) = acks w ++ concat (step_acks <$> inputs).
Proof.
  revert w. induction inputs as [| i inputs IH]; intros w.
  - cbn. by rewrite app_nil_r.
  - rewrite run_cons, IH. destruct (step_self i w) as (_ & _ & _ & ->).
    cbn. by rewrite app_assoc.
Qed.

(** X16. A socket that reports an error and then ends causes two
    reconnections: the [end] listener opens a socket at once, and the
    timer set by the [error] listener opens another one when it expires,
    which becomes [self.stream] while the first is still there. *)
Theorem error_and_end_open_two_sockets (w : World) (h : nat) (err : string) :
  (h < length (sockets w))%nat →
  let w' := run [InError h err; InEnd h; InTimer (length (timers w))] w in
  length (sockets w') = (length (sockets w) + 2)%nat
  ∧ stream (self w') = Some (length (sockets w) + 1)%nat
  ∧ timers w' = timers w.
Proof.
  intros Hh. cbv zeta. rewrite !run_cons. change (run [] ?x) with x.
  assert (Hlt : (h <? length (sockets w))%nat = true) by by apply Nat.ltb_lt.
  cbn [step]. rewrite Hlt.
  assert (Hlen1 : length (sockets (stream_error h err w)) = length (sockets w))
    by apply length_alter.
  rewrite Hlen1, Hlt.
  set (w2 := stream_on_end (stream_error h err w)).
  assert (Ht2 : timers w2 = timers w ++ [connectionDelay (self w)]) by done.
  assert (Hlen2 : length (sockets w2) = S (length (sockets w))).
  { unfold w2, stream_on_end, connectStream. cbn.
    rewrite length_app, length_alter. cbn. lia. }
  unfold timer_fires. rewrite Ht2, list_lookup_middle by done. cbn.
  rewrite delete_middle, app_nil_r.
  rewrite retry_sockets, length_app.
  destruct (retry_stream (set_timers (timers w) w2)) as [-> _].
  cbn [length sockets set_timers]. rewrite Hlen2.
  split; [lia |]. split; [f_equal; lia |].
  unfold_retry. by repeat case_match.
Qed.


(** *** Order on the wire, over runs *)







End Transport.

(** ** The model on concrete transports

    Node is taken to report the host name [web-1] and the process id
    4242, and to call a socket writable from [tls.connect] on. *)

Abbreviation node_retry := (retry true).
Abbreviation node_log := (log sample_inspect).
Abbreviation node_logs := (logs sample_inspect).
Abbreviation node_Loggly := (Loggly "web-1" 4242 sample_stringify true).
Abbreviation node_readme_world := (readme_world "web-1" 4242 sample_stringify true).
Abbreviation node_tuned_world := (tuned_world "web-1" 4242 sample_stringify true).

(** C8. [log] computes the inspected text of a message that is not a
    string and then hands the message itself to [sendMessage]: whatever
    [util.inspect] answers, the outcome is the same. With a formatter that
    returns [typeof message], the record written for the number 42 has the
    body [number]; the body made from the inspected text would be
    [string]. *)
Theorem log_sends_message_uninspected :
  let w := handshake_completes node_tuned_world in
  let now := "2015-01-01T00:00:03.000Z" in
  (∀ (inspect1 inspect2 : jsval → string) (c : LogCall) (w : World),
      log inspect1 c w = log inspect2 c w)
  ∧ wire (fst (node_log call_42 w))
    = [encode (self w) now "info" (JNum 42) (JObj [])]
  ∧ encode (self w) now "info" (JNum 42) (JObj [])
    = "<14>1 2015-01-01T00:00:03.000Z web-1 default 4242 " +:+ dquote +:+ "-"
      +:+ dquote +:+ " [abc@41058] number" +:+ CRLF
  ∧ encode (self w) now "info" (JStr (sample_inspect (JNum 42))) (JObj [])
    = "<14>1 2015-01-01T00:00:03.000Z web-1 default 4242 " +:+ dquote +:+ "-"
      +:+ dquote +:+ " [abc@41058] string" +:+ CRLF.
Proof. cbv zeta. split; [done |]. by vm_compute. Qed.

(** With the default formatter the number reaches [JSON.stringify] as a
    number. *)
Example log_number_default_format :
  wire (fst (node_log call_42 (handshake_completes node_readme_world)))
  = ["<14>1 2015-01-01T00:00:03.000Z web-1 default 4242 " +:+ dquote +:+ "-"
     +:+ dquote +:+ " [abc@41058 tag=" +:+ dquote +:+ "tag1" +:+ dquote
     +:+ " tag=" +:+ dquote +:+ "tag2" +:+ dquote +:+ "] {" +:+ dquote
     +:+ "log_msg" +:+ dquote +:+ ":42}" +:+ CRLF].
Proof. by vm_compute. Qed.

(** After four failed attempts with the defaults, the fifth doubles the
    delay of 1000 and resets the retry counter. *)
Lemma retry_counts_and_decays_witness :
  connectionDelay (self (node_retry (Nat.iter 4 node_retry node_readme_world)))
  = 2000
  ∧ currentRetries (self (node_retry (Nat.iter 4 node_retry node_readme_world)))
    = 0.
Proof.
  destruct (retry_counts_and_decays true (Nat.iter 4 node_retry node_readme_world))
    as (_ & Hdecay & _).
  apply Hdecay. split; by vm_compute.
Defined.

(** With [maximumAttempts: 3], the third failed attempt disables
    buffering with one notification, the fourth adds none, and a call of
    [log] after them leaves buffer and sockets alone. *)
Lemma buffering_disabled_once_witness :
  let w2 := Nat.iter 2 node_retry node_tuned_world in
  let w4 := Nat.iter 2 node_retry w2 in
  (loggingEnabled (self w2) = true
   ∧ loggingEnabled (self w4) = false
   ∧ emitted w4 = [buffering_disabled]
   ∧ buffer (self w4) = buffer (self w2))
  ∧ (buffer (self (fst (node_log call_A w4))) = buffer (self w4)
     ∧ sockets (fst (node_log call_A w4)) = sockets w4
     ∧ emitted (fst (node_log call_A w4)) = emitted w4).
Proof.
  cbv zeta. split.
  - split; [reflexivity |].
    destruct (buffering_disabled_once sample_inspect true
                (Nat.iter 2 node_retry node_tuned_world)) as (Hdis & _).
    apply (Hdis eq_refl); by vm_compute.
  - destruct (buffering_disabled_once sample_inspect true
                (Nat.iter 2 node_retry (Nat.iter 2 node_retry node_tuned_world)))
      as (_ & _ & Hoff).
    apply Hoff. reflexivity.
Defined.

(** A and B are logged after the first socket has failed, the retry
    timer opens a second socket, its handshake completes, and C is
    logged: the second socket is given A and B in one chunk, then C. *)
Lemma buffered_records_precede_later_ones_witness :
  let w := stream_error 0 "ECONNRESET" node_readme_world in
  let w4 :=
    node_logs [call_C]
      (handshake_completes
         (reconnects true [RTimer] (node_logs [call_A; call_B] w))) in
  wire w4
  = [call_record (self w) call_A +:+ call_record (self w) call_B;
     call_record (self w) call_C]
  ∧ buffer (self w4) = EmptyString.
Proof.
  cbv zeta.
  destruct (buffered_records_precede_later_ones sample_inspect true
              (stream_error 0 "ECONNRESET" node_readme_world)
              [call_A; call_B] [call_C] [RTimer])
    as (Hwire & Hbatch & Hbuf & _).
  - exists 0%nat. split; [reflexivity | cbn; lia].
  - reflexivity.
  - reflexivity.
  - split; [| exact Hbuf]. rewrite Hwire, Hbatch by done. by vm_compute.
Defined.

(** A call with a callback is acknowledged, also after buffering was
    disabled. *)
Lemma log_acknowledges_witness :
  let w := Nat.iter 3 node_retry node_tuned_world in
  loggingEnabled (self w) = false
  ∧ snd (node_log call_A w) = Normal
  ∧ acks (fst (node_log call_A w)) = [("done", [JNull; JBool true])]
  ∧ sockets (fst (node_log call_A w)) = sockets w
  ∧ buffer (self (fst (node_log call_A w))) = buffer (self w).
Proof.
  cbv zeta. split; [reflexivity |].
  destruct (log_acknowledges sample_inspect call_A
              (Nat.iter 3 node_retry node_tuned_world) "done" eq_refl)
    as (Hnormal & Hacks & Hdrop).
  split; [exact Hnormal |]. split; [exact Hacks |].
  apply Hdrop. reflexivity.
Defined.

(** No options and an empty token are refused, the README's options are
    accepted. *)
Lemma Loggly_requires_token_witness :
  node_Loggly (Some no_options) = Thrown "Missing required parameters: token"
  ∧ node_Loggly (Some readme_options) = Constructed node_readme_world.
Proof.
  split.
  - destruct (Loggly_requires_token "web-1" 4242 sample_stringify true
                no_options) as (_ & Hmissing & _).
    apply Hmissing. reflexivity.
  - destruct (Loggly_requires_token "web-1" 4242 sample_stringify true
                readme_options) as (_ & _ & _ & _ & Hgiven).
    apply (Hgiven "abc"); [reflexivity | discriminate].
Defined.

(** [port: 0], [program: ''], [maximumAttempts: 0] and
    [connectionDelay: 0] give 6514, [default], 25 and 1000. *)
Lemma Loggly_defaults_for_falsy_options_witness :
  ∃ w, node_Loggly (Some zeroed_options) = Constructed w
       ∧ port (self w) = 6514
       ∧ program (self w) = "default"
       ∧ maximumAttempts (self w) = 25
       ∧ connectionDelay (self w) = 1000.
Proof.
  eexists. split; [reflexivity |].
  destruct (Loggly_defaults_for_falsy_options "web-1" 4242 sample_stringify true
              zeroed_options _ eq_refl)
    as (_ & Hport & _ & _ & _ & Hprogram & _ & _ & _ & Hmax & Hdelay & _).
  split; [apply Hport; reflexivity |].
  split; [apply Hprogram; reflexivity |].
  split; [apply Hmax; reflexivity | apply Hdelay; reflexivity].
Defined.

(** A remark on the time between [tls.connect] and the end of the
    handshake. A socket that already reports [writable] then takes the
    record of a call directly, so that it is written before the buffer is
    flushed; a socket that does not, lets the record join the buffer. *)
Example record_logged_while_connecting :
  let w := stream_error 0 "ECONNRESET" node_readme_world in
  let w' :=
    stream_error 0 "ECONNRESET" (readme_world "web-1" 4242 sample_stringify false) in
  wire (handshake_completes
          (node_logs [call_B] (retry true (node_logs [call_A] w))))
  = [call_record (self w) call_B; call_record (self w) call_A]
  ∧ wire (handshake_completes
            (node_logs [call_B] (retry false (node_logs [call_A] w'))))
    = [call_record (self w') call_A +:+ call_record (self w') call_B].
Proof. by vm_compute. Qed.

(** ** The further properties on concrete transports *)

Abbreviation node_run := (run sample_inspect true).
Abbreviation node_step := (step sample_inspect true).

(** [warning] is encoded with 12. *)
Lemma priority_from_9_to_15_witness :
  ∃ n, priVal "warning" = JNum n ∧ 9 ≤ n ≤ 15.
Proof.
  destruct (priority_from_9_to_15 "warning") as [Hrange _].
  apply Hrange. apply not_elem_of_dom. by vm_compute.
Defined.

(** With the defaults, five failed attempts in a row take the delay from
    1000 to 2000. *)
Lemma consecutive_failures_double_delay_witness :
  connectionDelay (self (Nat.iter 5 node_retry node_readme_world)) = 2000
  ∧ currentRetries (self (Nat.iter 5 node_retry node_readme_world)) = 0.
Proof.
  destruct (consecutive_failures_double_delay true node_readme_world 5)
    as (_ & Hd & Hc); [reflexivity | lia | reflexivity | reflexivity |].
  split; [exact Hd | exact Hc].
Defined.

(** With [maximumAttempts: 3], buffering is still enabled after two
    retries and no longer after three. *)
Lemma retries_counted_witness :
  totalRetries (self (Nat.iter 2 node_retry node_tuned_world)) = 2
  ∧ length (sockets (Nat.iter 2 node_retry node_tuned_world)) = 3%nat
  ∧ loggingEnabled (self (Nat.iter 2 node_retry node_tuned_world)) = true.
Proof.
  destruct (retries_counted true 2 node_tuned_world) as (Ht & Hs & He).
  split; [exact Ht |]. split; [exact Hs |].
  apply (He eq_refl). right. by vm_compute.
Defined.

(** A is buffered, three retries disable buffering, and the handshake of
    the newest socket delivers A and lets C through. *)
Lemma connection_restores_buffering_witness :
  let w :=
    Nat.iter 3 node_retry
      (node_logs [call_A] (stream_error 0 "ECONNRESET" node_tuned_world)) in
  loggingEnabled (self w) = false
  ∧ loggingEnabled (self (handshake_completes w)) = true
  ∧ wire (fst (node_log call_C (handshake_completes w)))
    = [call_record (self w) call_A; call_record (self w) call_C].
Proof.
  cbv zeta. split; [reflexivity |].
  destruct (connection_restores_buffering sample_inspect call_C
              (Nat.iter 3 node_retry
                 (node_logs [call_A]
                    (stream_error 0 "ECONNRESET" node_tuned_world))))
    as (Hen & _ & _ & Hwire).
  - exists 3%nat. split; [reflexivity | vm_compute; lia].
  - reflexivity.
  - split; [exact Hen |]. rewrite Hwire. by vm_compute.
Defined.

(** The message A joins the metadata [{user: 'x'}] as [log_msg]. *)
Lemma defaultLogFormat_sets_log_msg_witness :
  ∃ props',
    defaultLogFormat sample_stringify (JStr "A") (JObj [("user", JStr "x")])
    = sample_stringify (JObj props')
    ∧ prop_lookup "log_msg" props' = Some (JStr "A")
    ∧ prop_lookup "user" props' = Some (JStr "x").
Proof.
  destruct (defaultLogFormat_sets_log_msg sample_stringify (JStr "A")
              [("user", JStr "x")] eq_refl)
    as (props' & Heq & Hmsg & Hrest & _).
  exists props'. split; [exact Heq |]. split; [exact Hmsg |].
  rewrite Hrest; [reflexivity | discriminate].
Defined.

(** An empty message leaves only the metadata, and metadata that is a
    string leaves no room for the message. *)
Lemma defaultLogFormat_edge_cases_witness :
  defaultLogFormat sample_stringify (JStr EmptyString) (JObj [("user", JStr "x")])
  = sample_stringify (JObj [("user", JStr "x")])
  ∧ defaultLogFormat sample_stringify (JStr "A") (JStr "note")
    = sample_stringify (JStr "note").
Proof.
  split.
  - destruct (defaultLogFormat_edge_cases sample_stringify (JStr EmptyString)
                (JObj [("user", JStr "x")])) as (Hmeta & _).
    apply Hmeta; reflexivity.
  - destruct (defaultLogFormat_edge_cases sample_stringify (JStr "A")
                (JStr "note")) as (_ & _ & _ & Hprim).
    apply Hprim; [reflexivity | discriminate].
Defined.

(** [log('info', 'A', {})] on a connected transport writes the record
    and then throws. *)
Lemma log_without_callable_callback_witness :
  let w := handshake_completes node_readme_world in
  snd (node_log call_without_callback w)
  = Throw "TypeError: callback is not a function"
  ∧ wire (fst (node_log call_without_callback w))
    = [call_record (self w) call_without_callback].
Proof.
  cbv zeta.
  destruct (log_without_callable_callback sample_inspect call_without_callback
              (handshake_completes node_readme_world))
    as (Hthrow & _ & Hsent & _); [discriminate | discriminate |].
  split; [exact Hthrow |]. rewrite (Hsent eq_refl). by vm_compute.
Defined.

(** [log('info', 'A', done)] calls [done] and formats with [{}]. *)
Lemma log_callback_in_place_of_meta_witness :
  let w := handshake_completes node_readme_world in
  acks (fst (node_log call_three_arguments w)) = [("done", [JNull; JBool true])]
  ∧ wire (fst (node_log call_three_arguments w))
    = [encode (self w) "2015-01-01T00:00:05.000Z" "info" (JStr "A") (JObj [])].
Proof.
  cbv zeta.
  rewrite (log_callback_in_place_of_meta sample_inspect call_three_arguments
             (handshake_completes node_readme_world) "done"
             eq_refl eq_refl eq_refl).
  by vm_compute.
Defined.

(** After the first socket has failed, A goes to the buffer. *)
Lemma log_routes_record_once_witness :
  let w := stream_error 0 "ECONNRESET" node_readme_world in
  buffer (self (fst (node_log call_A w))) = call_record (self w) call_A
  ∧ sockets (fst (node_log call_A w)) = sockets w.
Proof.
  cbv zeta.
  destruct (log_routes_record_once sample_inspect call_A
              (stream_error 0 "ECONNRESET" node_readme_world))
    as (_ & Hbuf & _).
  destruct (Hbuf eq_refl eq_refl) as [Hb Hs].
  split; [rewrite Hb; reflexivity | exact Hs].
Defined.

(** The README's transport after the sample run. *)
Lemma settings_never_change_witness :
  structuredData (self (node_run sample_run node_readme_world))
  = "[abc@41058 tag=" +:+ dquote +:+ "tag1" +:+ dquote +:+ " tag=" +:+ dquote
    +:+ "tag2" +:+ dquote +:+ "]"
  ∧ hostname (self (node_run sample_run node_readme_world)) = "web-1".
Proof.
  destruct (settings_never_change "web-1" 4242 sample_inspect sample_stringify
              true readme_options node_readme_world sample_run eq_refl)
    as [Hset Hsd].
  split; [rewrite Hsd; reflexivity |].
  destruct Hset as (_ & _ & _ & _ & _ & _ & Hh & _). rewrite Hh. reflexivity.
Defined.

Lemma sockets_stay_in_order_witness :
  stream (self (node_run sample_run node_readme_world)) = Some 1%nat
  ∧ length (sockets (node_run sample_run node_readme_world)) = 2%nat
  ∧ port (self (node_run sample_run node_readme_world)) = 6514.
Proof.
  destruct (sockets_stay_in_order "web-1" 4242 sample_inspect sample_stringify
              true readme_options node_readme_world sample_run eq_refl)
    as ((Hs & _ & _) & _ & Hp).
  split; [rewrite Hs; reflexivity |]. split; [reflexivity | exact Hp].
Defined.

Lemma counters_stay_ordered_witness :
  0 ≤ currentRetries (self (node_run sample_run node_readme_world))
    ≤ totalRetries (self (node_run sample_run node_readme_world)).
Proof.
  apply (counters_stay_ordered "web-1" 4242 sample_inspect sample_stringify
           true readme_options node_readme_world sample_run eq_refl).
Defined.

Lemma delay_stays_bounded_witness :
  let t := self (node_run sample_run node_tuned_world) in
  connectionDelay t < 2 * maxDelayBetweenReconnection t
  ∨ connectionDelay t = 500
  ∨ connectionDelay t = 1000.
Proof.
  apply (delay_stays_bounded "web-1" 4242 sample_inspect sample_stringify
           true tuned_options node_tuned_world sample_run eq_refl).
Defined.

(** Once a second socket is open, a call of [log] leaves the first
    socket as it was. *)
Lemma writes_reach_only_current_socket_witness :
  let w := node_step (InEnd 0) node_readme_world in
  ∃ s', sockets (node_step (InLog call_A) w) !! 0%nat = Some s'
        ∧ written s' = [].
Proof.
  cbv zeta.
  destruct (writes_reach_only_current_socket sample_inspect true (InLog call_A)
              (node_step (InEnd 0) node_readme_world) 0
              {| remote_port := 6514; remote_host := "logs-01.loggly.com";
                 rejectUnauthorized := false; writable := true; written := [] |}
              eq_refl)
    as (s' & Hs' & Hw); [discriminate |].
  exists s'. split; [exact Hs' | exact Hw].
Defined.

(** The first socket of the README's transport reports an error and
    ends: two more sockets are opened. *)
Lemma error_and_end_open_two_sockets_witness :
  let w' := node_run [InError 0 "ECONNRESET"; InEnd 0; InTimer 0] node_readme_world in
  length (sockets w') = 3%nat ∧ stream (self w') = Some 2%nat ∧ timers w' = [].
Proof.
  apply (error_and_end_open_two_sockets sample_inspect true node_readme_world
           0 "ECONNRESET").
  vm_compute. lia.
Defined.


